(** * hstr 0.2: the history filter and the selection loop

    A shallow embedding of [src/hstr.c]: the two-pass filter
    [makeSelection] with its hash set of seen lines, and the keyboard
    loop [selectionLoop] seen as a step function on its variables.

    The first part is the program; the second part gathers the notions
    the statements use; the third part proves what the filter returns
    (order, duplicates, bound, content) and how the loop answers the
    keys (Enter, Escape, the arrows, typing and erasing); the last part
    follows the history from the file to the terminal: the lines of the
    file, their reversal, the rows drawn and the command returned. *)

From Stdlib Require Import ZArith Ascii.
From stdpp Require Import gmap strings list.
From Equations Require Import Equations.

Local Open Scope Z_scope.

(** ** C strings *)

(** A [char*] that points to a NUL-terminated string is read as the
    [string] of the bytes before the terminator. *)

Module CString.

(** [is_prefix needle s]: the bytes of [needle] are the first bytes of [s]. *)
Fixpoint is_prefix (needle s : string) : bool :=
  match needle, s with
  | EmptyString, _ => true
  | String a needle', String b s' => if Ascii.eqb a b then is_prefix needle' s' else false
  | String _ _, EmptyString => false
  end.

(** [strstr haystack needle]: the offset of the first occurrence of
    [needle] in [haystack] ([Some 0] is the pointer [haystack] itself),
    or [None] for the null pointer. *)
Fixpoint strstr (haystack needle : string) : option nat :=
  if is_prefix needle haystack then Some 0%nat
  else match haystack with
       | EmptyString => None
       | String _ rest => S <$> strstr rest needle
       end.

(** [strlen] *)
Definition strlen (s : string) : Z := Z.of_nat (String.length s).

(** [s[strlen(s)-1] = 0]: the string without its last byte. *)
Fixpoint drop_last (s : string) : string :=
  match s with
  | EmptyString => EmptyString
  | String _ EmptyString => EmptyString
  | String a rest => String a (drop_last rest)
  end.

End CString.

Import CString.

(** ** The hash set of [include/hashset.h] *)

Module HashSet.

(** Modelled from the spec: [include/hashset.h] and its implementation are
    not part of the sources at hand.  The specification describes the set
    as a seen-set keyed by exact text equality, with first-match-wins
    deduplication: a finite set of strings compared by content. *)
Definition HashSet : Type := gset string.

(** Modelled from the spec: [hs_init] leaves the set empty. *)
Definition hs_init : HashSet := ∅.

(** Modelled from the spec: [hs_contains] is membership by text equality. *)
Definition hs_contains (set : HashSet) (key : string) : bool :=
  bool_decide (key ∈ set).

(** Modelled from the spec: [hs_add] marks the text as seen. *)
Definition hs_add (set : HashSet) (key : string) : HashSet := {[ key ]} ∪ set.

End HashSet.

Import HashSet.

(** ** The selection *)

(** The entries of [selection] are pointers into [historyFileItems]:
    entry [i] stands for the pointer [historyFileItems[i]]. *)
Definition char_ptr : Type := nat.

(** The file-level variables [selection] and [selectionSize].  The
    buffer [selection] points to is kept as the slots that have been
    written, in order, and the number of bytes it was allocated with (0
    for the null pointer): reading a slot that was not written has no
    defined value, and neither has a store outside the buffer. *)
Record globals : Type := Globals {
  selection : list char_ptr;
  selectionBytes : Z;
  selectionSize : Z
}.

(** [sizeof(char* )] *)
Definition sizeof_char_ptr : Z := 8.

(** The conversion of a [size_t] value to [int]: the low 32 bits, read
    as a signed number. *)
Definition int_of_size_t (n : Z) : Z :=
  let low := n mod 2 ^ 32 in
  if low <? 2 ^ 31 then low else low - 2 ^ 32.

(** [allocSelection(int size)]: the size is recorded and the old buffer is
    freed; a buffer of [size] bytes without a written slot is allocated
    if [size>0] ([malloc] is taken to succeed), and [selection] is the
    null pointer otherwise. *)
Definition allocSelection (size : Z) (g : globals) : globals :=
  {| selection := [];
     selectionBytes := if 0 <? size then size else 0;
     selectionSize := size |}.

(** The variables of the two loops of [makeSelection]: the written slots of
    [selection] (so [selectionCount] is their number) and the hash set. *)
Record scan : Type := Scan {
  slots : list char_ptr;
  set : HashSet
}.

Definition selectionCount (st : scan) : Z := Z.of_nat (length (slots st)).

(** [selection[selectionCount++]=historyFileItems[i]; hs_add(&set, historyFileItems[i]);] *)
Definition take_item (i : char_ptr) (line : string) (st : scan) : scan :=
  {| slots := slots st ++ [i]; set := hs_add (set st) line |}.

(** The slot [selection[selectionCount]] lies in a buffer of [bytes] bytes. *)
Definition store_fits (bytes : Z) (st : scan) : bool :=
  sizeof_char_ptr * (selectionCount st + 1) <=? bytes.

(** The test of the first loop on a line that is not in the set. *)
Definition accept1 (prefix : option string) (line : string) : bool :=
  match prefix with
  | None => true
  | Some p => bool_decide (strstr line p = Some 0%nat)
  end.

(** The test of the second loop: [substring != NULL && substring != historyFileItems[i]]. *)
Definition accept2 (prefix : string) (line : string) : bool :=
  match strstr line prefix with
  | Some (S _) => true
  | _ => false
  end.

(** [for(i=...; i<historyFileItemsCount && selectionCount<maxSelectionCount; i++)]
    with the body [if(!hs_contains(&set, historyFileItems[i])) { if (accept) {...} }];
    [items] is the part of the array from index [i] on and [bytes] the
    size of the buffer.  A store outside the buffer (or through the null
    pointer, a buffer of no byte) ends the loop without a result. *)
Fixpoint scan_loop (accept : string → bool) (maxSelectionCount bytes : Z)
    (i : nat) (items : list string) (st : scan) : option scan :=
  match items with
  | [] => Some st
  | line :: items' =>
      if selectionCount st <? maxSelectionCount then
        if hs_contains (set st) line then
          scan_loop accept maxSelectionCount bytes (S i) items' st
        else if accept line then
          if store_fits bytes st then
            scan_loop accept maxSelectionCount bytes (S i) items' (take_item i line st)
          else None
        else scan_loop accept maxSelectionCount bytes (S i) items' st
      else Some st
  end.

(** [makeSelection]; the array and its length [historyFileItemsCount] are
    the list [historyFileItems].  The size of the buffer is the product
    [sizeof(char* ) * maxSelectionCount] as the [int] that
    [allocSelection] receives.  [None] stands for a run that stores
    outside the buffer. *)
Definition makeSelection (prefix : option string) (historyFileItems : list string)
    (maxSelectionCount : Z) (g : globals) : option globals :=
  let g := allocSelection (int_of_size_t (sizeof_char_ptr * maxSelectionCount)) g in
  st ← scan_loop (accept1 prefix) maxSelectionCount (selectionBytes g) 0 historyFileItems
         {| slots := selection g; set := hs_init |};
  st ← match prefix with
       | Some p =>
           if selectionCount st <? maxSelectionCount then
             scan_loop (accept2 p) maxSelectionCount (selectionBytes g) 0
               historyFileItems st
           else Some st
       | None => Some st
       end;
  Some {| selection := slots st;
          selectionBytes := selectionBytes g;
          selectionSize := selectionCount st |}.

(** The text an entry of the selection points to. *)
Definition line_of (historyFileItems : list string) (p : char_ptr) : string :=
  default EmptyString (historyFileItems !! p).

Definition selection_text (historyFileItems : list string) (g : globals) : list string :=
  line_of historyFileItems <$> selection g.

(** The file-level variables when the program starts: [selection=NULL] and
    [selectionSize=0]. *)
Definition no_globals : globals :=
  {| selection := []; selectionBytes := 0; selectionSize := 0 |}.

(** ** The keyboard loop *)

(** Key codes of [hstr.c] and of [curses.h]. *)
Definition KEY_TERMINAL_RESIZE : Z := 410.
Definition KEY_CTRL_A : Z := 1.
Definition KEY_CTRL_E : Z := 5.
Definition KEY_DOWN : Z := 258.       (* 0402 *)
Definition KEY_UP : Z := 259.         (* 0403 *)
Definition KEY_BACKSPACE : Z := 263.  (* 0407 *)
Definition SELECTION_CURSOR_IN_PROMPT : Z := -1.

(** The size of the buffer [char prefix[500]]. *)
Definition PREFIX_SIZE : Z := 500.

(** [(char* )(&c)] for [int c]: the four bytes of the key code, least
    significant first as on the x86 machines the program is built for,
    read as a C string.  The string ends at the first
    zero byte; a key code without a zero byte makes [strcat] read past
    the variable, which has no defined result. *)
Definition int_byte (c : Z) (k : Z) : Z := Z.land (Z.shiftr c (8 * k)) 255.

Definition int_bytes (c : Z) : list Z :=
  [int_byte c 0; int_byte c 1; int_byte c 2; int_byte c 3].

Fixpoint cstring_of_bytes (bytes : list Z) : option string :=
  match bytes with
  | [] => None
  | b :: bytes' =>
      if b =? 0 then Some EmptyString
      else String (Ascii.ascii_of_N (Z.to_N b)) <$> cstring_of_bytes bytes'
  end.

Definition key_text (c : Z) : option string := cstring_of_bytes (int_bytes c).

(** The variables of [selectionLoop] that the keys act on, with the
    file-level variables.  [result] is kept as the text it points to.
    The screen coordinates ([x], [y], [basex], [cursorX], [cursorY]) only
    feed the drawing calls and are left out. *)
Record session : Type := Session {
  globs : globals;
  selectionCursorPosition : Z;
  previousSelectionCursorPosition : Z;
  prefix : string;
  result : string
}.

(** What one turn of [while (!done)] leaves: the loop goes on, the loop
    ends and [selectionLoop] returns a text, or the turn reads memory
    that holds no defined value. *)
Inductive outcome : Type :=
  | Running (s : session)
  | Done (text : string)
  | Undefined.

(** [selection[k]] for an [int k]: defined on the written slots only. *)
Definition selection_at (g : globals) (k : Z) : option char_ptr :=
  if k <? 0 then None else selection g !! Z.to_nat k.

(** [printSelection] without the drawing: the selection is rebuilt and
    the text of its first entry, or the empty text, is returned.  The
    value [makeSelection] returns is the [selectionSize] it leaves. *)
Definition printSelection (maxHistoryItems : Z) (prefix : option string)
    (historyFileItems : list string) (g : globals) : option (globals * string) :=
  g ← makeSelection prefix historyFileItems maxHistoryItems g;
  let selectionCount := selectionSize g in
  Some (g, if 0 <? selectionCount
           then match selection g with
                | p :: _ => line_of historyFileItems p
                | [] => EmptyString
                end
           else EmptyString).

Section Loop.

Variable historyFileItems : list string.

(** [case KEY_BACKSPACE: case 127:] *)
Definition on_backspace (maxHistoryItems : Z) (s : session) : outcome :=
  let prefix := if 0 <? strlen (prefix s) then drop_last (prefix s) else prefix s in
  match
    g ← (if 0 <? strlen prefix
         then makeSelection (Some prefix) historyFileItems maxHistoryItems (globs s)
         else makeSelection None historyFileItems maxHistoryItems (globs s));
    printSelection maxHistoryItems (Some prefix) historyFileItems g
  with
  | Some (g, result) =>
      Running {| globs := g;
                 selectionCursorPosition := selectionCursorPosition s;
                 previousSelectionCursorPosition := previousSelectionCursorPosition s;
                 prefix := prefix;
                 result := result |}
  | None => Undefined
  end.

(** [case KEY_UP: case 65:] *)
Definition on_up (s : session) : outcome :=
  if selectionCursorPosition s >? SELECTION_CURSOR_IN_PROMPT then
    Running {| globs := globs s;
               selectionCursorPosition := selectionCursorPosition s - 1;
               previousSelectionCursorPosition := selectionCursorPosition s;
               prefix := prefix s;
               result := result s |}
  else
    Running {| globs := globs s;
               selectionCursorPosition := selectionCursorPosition s;
               previousSelectionCursorPosition := SELECTION_CURSOR_IN_PROMPT;
               prefix := prefix s;
               result := result s |}.

(** [case KEY_DOWN: case 66:] *)
Definition on_down (s : session) : outcome :=
  Running {| globs := globs s;
             selectionCursorPosition :=
               if selectionCursorPosition s + 1 <? selectionSize (globs s)
               then selectionCursorPosition s + 1
               else 0;
             previousSelectionCursorPosition := selectionCursorPosition s;
             prefix := prefix s;
             result := result s |}.

(** [case 10:] the loop ends with this turn, so the buffer that
    [allocSelection(0)] frees is not read again. *)
Definition on_enter (s : session) : outcome :=
  if negb (selectionCursorPosition s =? SELECTION_CURSOR_IN_PROMPT) then
    match selection_at (globs s) (selectionCursorPosition s) with
    | Some p => Done (line_of historyFileItems p)
    | None => Undefined
    end
  else Done (result s).

(** [default:] *)
Definition on_default (maxHistoryItems c : Z) (s : session) : outcome :=
  if c =? 27 then Running s
  else match key_text c with
       | None => Undefined
       | Some typed =>
           let prefix := prefix s +:+ typed in
           if strlen prefix <? PREFIX_SIZE then
             match
               printSelection maxHistoryItems (Some prefix) historyFileItems (globs s)
             with
             | Some (g, result) =>
                 Running {| globs := g;
                            selectionCursorPosition := selectionCursorPosition s;
                            previousSelectionCursorPosition :=
                              previousSelectionCursorPosition s;
                            prefix := prefix;
                            result := result |}
             | None => Undefined
             end
           else Undefined
       end.

(** One turn of the loop: [maxHistoryItems] is what
    [getMaxHistoryItems(stdscr)] gives at the top of the turn and [c] is
    the key [wgetch] delivers. *)
Definition step (maxHistoryItems c : Z) (s : session) : outcome :=
  if (c =? KEY_TERMINAL_RESIZE) || (c =? KEY_CTRL_A) || (c =? KEY_CTRL_E) then Running s
  else if c =? 91 then Running s
  else if (c =? KEY_BACKSPACE) || (c =? 127) then on_backspace maxHistoryItems s
  else if (c =? KEY_UP) || (c =? 65) then on_up s
  else if (c =? KEY_DOWN) || (c =? 66) then on_down s
  else if c =? 10 then on_enter s
  else on_default maxHistoryItems c s.

(** The variables on entry to the loop, after a first drawing that left
    the file-level variables [g]: the cursor is in the prompt, and
    [prefix] and [result] are empty. *)
Definition entry (g : globals) : session :=
  {| globs := g;
     selectionCursorPosition := SELECTION_CURSOR_IN_PROMPT;
     previousSelectionCursorPosition := SELECTION_CURSOR_IN_PROMPT;
     prefix := EmptyString;
     result := EmptyString |}.

(** The state on entry to the loop: the selection of the whole history
    has been drawn (the text [printSelection] returns there is dropped).
    Where the first drawing has no result there is no such state, and
    the file-level variables are shown as they were before it. *)
Definition start (maxHistoryItems : Z) : session :=
  match printSelection maxHistoryItems None historyFileItems no_globals with
  | Some (g, _) => entry g
  | None => entry no_globals
  end.

(** The loop over the turns [(maxHistoryItems, c)] that the terminal
    supplies; a turn after the loop has ended is never taken. *)
Fixpoint run (turns : list (Z * Z)) (s : session) : outcome :=
  match turns with
  | [] => Running s
  | (maxHistoryItems, c) :: turns' =>
      match step maxHistoryItems c s with
      | Running s' => run turns' s'
      | o => o
      end
  end.

(** [selectionLoop] on the turns the terminal supplies, after the first
    drawing in a window that leaves [maxHistoryItems] rows to the
    selection. *)
Definition selectionLoop (maxHistoryItems : Z) (turns : list (Z * Z)) : outcome :=
  match printSelection maxHistoryItems None historyFileItems no_globals with
  | Some _ => run turns (start maxHistoryItems)
  | None => Undefined
  end.

End Loop.

(** The turns of a terminal whose height stays the same. *)
Definition keys (maxHistoryItems : Z) (cs : list Z) : list (Z * Z) :=
  (λ c, (maxHistoryItems, c)) <$> cs.

(** ** Reading the history *)

(** ['\n'] *)
Definition newline : Ascii.ascii := Ascii.ascii_of_N 10.

(** [strchr s c] for a byte [c] other than the terminator: the offset of
    the first [c] in [s], or [None] for the null pointer. *)
Fixpoint strchr (s : string) (c : Ascii.ascii) : option nat :=
  match s with
  | EmptyString => None
  | String a rest => if Ascii.eqb a c then Some 0%nat else S <$> strchr rest c
  end.

(** [s + k]: the string that begins [k] bytes into [s]. *)
Fixpoint skip_bytes (k : nat) (s : string) : string :=
  match k, s with
  | S k', String _ rest => skip_bytes k' rest
  | _, _ => s
  end.

(** The string at [s] once [s[k]] has been set to the terminator. *)
Fixpoint cut_at (k : nat) (s : string) : string :=
  match k, s with
  | S k', String a rest => String a (cut_at k' rest)
  | _, _ => EmptyString
  end.

(** The value of an expression, with the proof that it is its value. *)
Definition inspect {A : Type} (a : A) : {b : A | a = b} := exist _ a eq_refl.

(** The loop of [countHistoryLines]: [from] is the string the next
    [strchr] reads ([history] at first, [p+1] afterwards) and [i] the
    count so far. *)
Equations? count_loop (from : string) (i : Z) : Z by wf (String.length from) lt :=
  count_loop from i with inspect (strchr from newline) := {
    | exist _ None _ => i
    | exist _ (Some k) Hk => count_loop (skip_bytes (S k) from) (i + 1) }.
Proof.
  clear count_loop. revert k Hk.
  induction from as [|a from IH]; intros k; simpl; [done|].
  destruct (Ascii.eqb a newline); [intros [= <-]; simpl; lia|].
  destruct (strchr from newline) as [k'|]; [|done].
  intros [= <-]. specialize (IH k' eq_refl). destruct from; simpl in *; lia.
Qed.

(** [countHistoryLines] *)
Definition countHistoryLines (history : string) : Z := count_loop history 0.

(** The loop of [tokenizeHistory]: [pb] is the rest of the history and
    [room] the number of slots of [tokens] not yet written.  Each turn
    stores [pb] and ends it at the newline; a turn without room writes
    outside the array. *)
Fixpoint tokenize_loop (room : nat) (pb : string) : option (list string) :=
  match strchr pb newline with
  | None => Some []
  | Some k =>
      match room with
      | O => None
      | S room' => (cut_at k pb ::.) <$> tokenize_loop room' (skip_bytes (S k) pb)
      end
  end.

(** [tokenizeHistory]: the written slots of [tokens], read as texts. *)
Definition tokenizeHistory (history : string) (lines : Z) : option (list string) :=
  tokenize_loop (Z.to_nat lines) history.

(** ** Most recent first *)

(** One turn of the loop: [array[i]] and [array[j]] change places; an
    index outside the array has no defined effect. *)
Definition swap_slots {A : Type} (array : list A) (i j : nat) : option (list A) :=
  temp ← array !! i;
  other ← array !! j;
  Some (<[j := temp]> (<[i := other]> array)).

(** The index [length-i-1], if it is not negative. *)
Definition mirror_index (length : Z) (i : nat) : option nat :=
  if length - Z.of_nat i - 1 <? 0 then None
  else Some (Z.to_nat (length - Z.of_nat i - 1)).

(** [for (i=...; i<length/2; i++)] with [todo] turns to go. *)
Fixpoint reverse_loop {A : Type} (todo : nat) (i : nat) (length : Z)
    (array : list A) : option (list A) :=
  match todo with
  | O => Some array
  | S todo' =>
      j ← mirror_index length i;
      array ← swap_slots array i j;
      reverse_loop todo' (S i) length array
  end.

(** [reverseCharPointerArray] *)
Definition reverseCharPointerArray {A : Type} (array : list A) (length : Z)
    : option (list A) :=
  reverse_loop (Z.to_nat (Z.quot length 2)) 0 length array.

(** ** From the file to the terminal *)

(** [fillTerminalInput]: every byte of [cmd] is pushed, in order, into
    the input queue of the terminal.  The newline printed afterwards goes
    to the standard output and is left out. *)
Fixpoint fillTerminalInput (cmd : string) (input : string) : string :=
  match cmd with
  | EmptyString => input
  | String c rest => fillTerminalInput rest (input +:+ String c EmptyString)
  end.

(** What a run of [hstr] leaves: the loop still waits for a key, the
    input queue of the terminal after the command has been pushed, or no
    defined result. *)
Inductive hstr_outcome : Type :=
  | Waiting
  | Injected (input : string)
  | Fault.

(** [hstr] on the text [loadHistoryFile] returns, in a window that
    leaves [maxHistoryItems] rows to the selection, with the turns the
    terminal supplies and an empty input queue. *)
Definition hstr (historyAsString : string) (maxHistoryItems : Z)
    (turns : list (Z * Z)) : hstr_outcome :=
  let itemsCount := countHistoryLines historyAsString in
  match tokenizeHistory historyAsString itemsCount with
  | None => Fault
  | Some items =>
      match reverseCharPointerArray items itemsCount with
      | None => Fault
      | Some items =>
          match selectionLoop items maxHistoryItems turns with
          | Done command => Injected (fillTerminalInput command EmptyString)
          | Running _ => Waiting
          | Undefined => Fault
          end
      end
  end.

(** ** The label, the marker and the rows *)

(** [LABEL_HISTORY] and [Y_OFFSET_ITEMS] *)
Definition LABEL_HISTORY : string := " HISTORY ".

(** The size of the buffer [char message[512]]. *)
Definition MESSAGE_SIZE : Z := 512.

(** [strcat(message, " ")], [times] times, in a buffer of [MESSAGE_SIZE] bytes. *)
Fixpoint pad_message (times : nat) (message : string) : option string :=
  match times with
  | O => Some message
  | S times' =>
      let message := message +:+ " " in
      if strlen message <? MESSAGE_SIZE then pad_message times' message else None
  end.

(** [printHistoryLabel] in a window [width] columns wide: the text that is
    drawn in reverse video, or [None] when [message] overflows. *)
Definition printHistoryLabel (width : Z) : option string :=
  pad_message (Z.to_nat (width - strlen LABEL_HISTORY)) LABEL_HISTORY.









(** * Notions used in the statements *)

(** ** The loops of [makeSelection] *)

(** The loop of [makeSelection] in a buffer with room for every store. *)
Fixpoint scan_unchecked (accept : string → bool) (maxSelectionCount : Z)
    (i : nat) (items : list string) (st : scan) : scan :=
  match items with
  | [] => st
  | line :: items' =>
      if selectionCount st <? maxSelectionCount then
        scan_unchecked accept maxSelectionCount (S i) items'
          (if hs_contains (set st) line then st
           else if accept line then take_item i line st
           else st)
      else st
  end.

(** The state [makeSelection] reaches after its loops, in such a buffer. *)
Definition scanned (prefix : option string) (historyFileItems : list string)
    (maxSelectionCount : Z) : scan :=
  let st := scan_unchecked (accept1 prefix) maxSelectionCount 0 historyFileItems
              {| slots := []; set := hs_init |} in
  match prefix with
  | Some p =>
      if selectionCount st <? maxSelectionCount then
        scan_unchecked (accept2 p) maxSelectionCount 0 historyFileItems st
      else st
  | None => st
  end.

(** What [makeSelection] leaves when no store of its run falls outside
    the buffer; [g] holds the variables it replaces. *)
Definition selected (prefix : option string) (historyFileItems : list string)
    (maxSelectionCount : Z) (g : globals) : globals :=
  {| selection := slots (scanned prefix historyFileItems maxSelectionCount);
     selectionBytes :=
       selectionBytes
         (allocSelection (int_of_size_t (sizeof_char_ptr * maxSelectionCount)) g);
     selectionSize := selectionCount (scanned prefix historyFileItems maxSelectionCount) |}.

(** Whether a line is stored by one of the two loops. *)
Definition accepted_by (prefix : option string) (line : string) : Prop :=
  accept1 prefix line = true ∨ ∃ p, prefix = Some p ∧ accept2 p line = true.

(** The line at index [j] passes the test and no earlier line has its text. *)
Definition first_accepted (accept : string → bool) (all : list string) (j : nat) : Prop :=
  accept (line_of all j) = true ∧ line_of all j ∉ take j all.

#[local] Instance first_accepted_dec accept all j : Decision (first_accepted accept all j).
Proof. unfold first_accepted. apply _. Defined.

(** The indices one loop would store if it had no limit. *)
Definition accepted (accept : string → bool) (all : list string) : list nat :=
  filter (first_accepted accept all) (seq 0 (length all)).

(** ** The filter as the specification words it *)

Module Spec.

(** "the line starts with [fragment] (case-sensitive, byte-exact)" *)
Definition starts_with (fragment line : string) : Prop :=
  ∃ rest, line = fragment +:+ rest.

(** "contains [fragment] as a substring" *)
Definition contains (fragment line : string) : Prop :=
  ∃ before after, line = before +:+ fragment +:+ after.

(** "contains [fragment] as a substring at a non-zero offset (i.e., it
    was excluded from phase 1 specifically because the match is not a
    prefix match)" *)
Definition substring_only (fragment line : string) : Prop :=
  contains fragment line ∧ ¬ starts_with fragment line.

(** "first-match-wins deduplication": the lines in order, without those
    whose text is in [seen] or has come before. *)
Fixpoint unique_from (seen : list string) (lines : list string) : list string :=
  match lines with
  | [] => []
  | line :: lines' =>
      if decide (line ∈ seen) then unique_from seen lines'
      else line :: unique_from (line :: seen) lines'
  end.

Definition unique (lines : list string) : list string := unique_from [] lines.

End Spec.

(** ** The keys *)

(** What the [switch] of [selectionLoop] does with a key code. *)
Inductive key_class : Type :=
  | KIgnored      (* 410, 1, 5 and 91: [break] *)
  | KBackspace
  | KUp
  | KDown
  | KEnter
  | KEscape       (* 27: the [default] case skips its body *)
  | KText.        (* any other code: the [default] case appends it *)

Definition classify (c : Z) : key_class :=
  if (c =? KEY_TERMINAL_RESIZE) || (c =? KEY_CTRL_A) || (c =? KEY_CTRL_E) then KIgnored
  else if c =? 91 then KIgnored
  else if (c =? KEY_BACKSPACE) || (c =? 127) then KBackspace
  else if (c =? KEY_UP) || (c =? 65) then KUp
  else if (c =? KEY_DOWN) || (c =? 66) then KDown
  else if c =? 10 then KEnter
  else if c =? 27 then KEscape
  else KText.

(** The keys that rebuild the selection. *)
Definition is_edit (c : Z) : bool :=
  match classify c with
  | KBackspace | KText => true
  | _ => false
  end.

(** The text of the first entry of the selection, if there is one. *)
Definition head_text (history : list string) (g : globals) : string :=
  match selection g with
  | p :: _ => line_of history p
  | [] => EmptyString
  end.



(** ** Concrete histories and states *)

Definition shell_history : list string := ["git status"; "go build"; "grep x"].

Definition five_lines : list string := ["xa"; "xb"; "y1"; "y2"; "y3"].

(** The state after the key [g] on [shell_history] in a terminal with
    ten rows for the selection. *)
Definition typed_g : session :=
  {| globs := {| selection := [0; 1; 2]%nat; selectionBytes := 80; selectionSize := 3 |};
     selectionCursorPosition := -1;
     previousSelectionCursorPosition := -1;
     prefix := "g";
     result := "git status" |}.

(** The state after five Down keys on [five_lines], and after the key [x]
    that follows them. *)
Definition fifth_row : session :=
  {| globs := {| selection := [0; 1; 2; 3; 4]%nat; selectionBytes := 80; selectionSize := 5 |};
     selectionCursorPosition := 4;
     previousSelectionCursorPosition := 3;
     prefix := "";
     result := "" |}.

Definition fifth_row_x : session :=
  {| globs := {| selection := [0; 1]%nat; selectionBytes := 80; selectionSize := 2 |};
     selectionCursorPosition := 4;
     previousSelectionCursorPosition := 3;
     prefix := "x";
     result := "xa" |}.

(** The key code a terminal sends for Ctrl-B, which no case of the
    [switch] names, and the byte it is read as. *)
Definition KEY_CTRL_B : Z := 2.

Definition ctrl_b_text : string := String (Ascii.ascii_of_N 2) EmptyString.





(** ** The history file *)

(** The number of newline bytes of a text. *)
Fixpoint newlines (s : string) : nat :=
  match s with
  | EmptyString => 0%nat
  | String a rest => if Ascii.eqb a newline then S (newlines rest) else newlines rest
  end.

(** The text of a file whose lines each end with a newline. *)
Fixpoint join_lines (lines : list string) : string :=
  match lines with
  | [] => EmptyString
  | line :: lines' => line +:+ String newline (join_lines lines')
  end.

(** ** The loop and the screen *)

(** The state keeps a selection of valid pointers and a [result] that is
    empty or a line of the history. *)
Definition sound (h : list string) (s : session) : Prop :=
  (∀ p, p ∈ selection (globs s) → is_Some (h !! p)) ∧
  (result s = EmptyString ∨ result s ∈ h).

(** The keys of the two arrows. *)
Definition is_arrow_key (c : Z) : bool :=
  match classify c with KUp | KDown => true | _ => false end.



(** [n] blanks. *)
Fixpoint spaces (n : nat) : string :=
  match n with
  | O => EmptyString
  | S n' => String " " (spaces n')
  end.

(** ** A history file *)

Definition three_commands : list string := ["ls"; "cd /tmp"; "make"].

(** The text of a file with the three commands and a last line that no
    newline ends. *)
Definition history_file : string := join_lines three_commands +:+ "tail".

(** Down, Down, Up and the letter B, which the loop reads as Down. *)
Definition arrow_keys : list Z := [KEY_DOWN; KEY_DOWN; KEY_UP; 66].


(** * Properties *)

(** ** [strstr] *)

Lemma append_nil s : EmptyString +:+ s = s.
Proof. reflexivity. Qed.

Lemma append_cons a s t : String a s +:+ t = String a (s +:+ t).
Proof. reflexivity. Qed.

Lemma is_prefix_spec needle s :
  is_prefix needle s = true ↔ ∃ rest, s = needle +:+ rest.
Proof.
  revert s. induction needle as [|a needle IH]; intros s; simpl.
  - split; [intros _; by exists s | done].
  - destruct s as [|b s].
    + split; [done | intros [rest Hrest]; discriminate].
    + destruct (Ascii.eqb_spec a b) as [->|Hne].
      * rewrite IH. split; intros [rest Hrest]; exists rest.
        -- rewrite append_cons. congruence.
        -- rewrite append_cons in Hrest. congruence.
      * split; [done | intros [rest Hrest]; rewrite append_cons in Hrest; congruence].
Qed.

Lemma is_prefix_empty s : is_prefix EmptyString s = true.
Proof. done. Qed.


Lemma strstr_zero haystack needle :
  strstr haystack needle = Some 0%nat ↔ is_prefix needle haystack = true.
Proof.
  destruct haystack as [|a rest]; simpl.
  - by destruct (is_prefix needle EmptyString).
  - destruct (is_prefix needle (String a rest)); [done|].
    by destruct (strstr rest needle).
Qed.

(** A result of [strstr] is the offset of an occurrence of the needle. *)
Lemma strstr_occurrence haystack needle k :
  strstr haystack needle = Some k →
  ∃ before after, haystack = before +:+ needle +:+ after ∧ String.length before = k.
Proof.
  revert k. induction haystack as [|a rest IH]; intros k; simpl.
  - destruct (is_prefix needle EmptyString) eqn:Hp; [|done].
    intros [= <-]. apply is_prefix_spec in Hp as [after ->]. by exists EmptyString, after.
  - destruct (is_prefix needle (String a rest)) eqn:Hp.
    + intros [= <-]. apply is_prefix_spec in Hp as [after Hafter].
      by exists EmptyString, after.
    + destruct (strstr rest needle) as [k'|]; [|done].
      intros [= <-]. destruct (IH k' eq_refl) as (before & after & -> & <-).
      by exists (String a before), after.
Qed.

(** The two tests exclude each other: a line taken by the first loop
    would never pass the test of the second. *)
Lemma accept1_not_accept2 p line :
  accept1 (Some p) line = true → accept2 p line = false.
Proof.
  unfold accept1, accept2. intros H%bool_decide_eq_true. by rewrite H.
Qed.



(** ** The loops of [makeSelection] *)

Lemma selectionCount_take_item i line st :
  selectionCount (take_item i line st) = selectionCount st + 1.
Proof. unfold selectionCount, take_item. simpl. rewrite length_app. simpl. lia. Qed.

Lemma hs_contains_false set key : hs_contains set key = false ↔ key ∉ set.
Proof. unfold hs_contains. apply bool_decide_eq_false. Qed.

Lemma hs_contains_true set key : hs_contains set key = true ↔ key ∈ set.
Proof. unfold hs_contains. apply bool_decide_eq_true. Qed.

Lemma elem_of_hs_add set key x : x ∈ hs_add set key ↔ x = key ∨ x ∈ set.
Proof. unfold hs_add. set_solver. Qed.

(** A property that every stored entry keeps holds when the loop ends.
    [all] is the whole array, of which the loop has still to visit the
    part [items] that begins at index [i]. *)
Lemma scan_unchecked_invariant (I : scan → Prop) accept maxSelectionCount (all : list string) :
  (∀ i line st,
      all !! i = Some line → I st →
      selectionCount st < maxSelectionCount →
      line ∉ set st → accept line = true →
      I (take_item i line st)) →
  ∀ items i st,
    drop i all = items → I st →
    I (scan_unchecked accept maxSelectionCount i items st).
Proof.
  intros Hstep items. induction items as [|line items IH]; intros i st Hdrop Hst; simpl.
  - done.
  - destruct (Z.ltb_spec (selectionCount st) maxSelectionCount) as [Hlt|]; [|done].
    assert (all !! i = Some line) as Hline.
    { rewrite <- (Nat.add_0_r i), <- lookup_drop, Hdrop. done. }
    apply IH.
    + rewrite (drop_S _ _ _ Hline) in Hdrop. congruence.
    + destruct (hs_contains (set st) line) eqn:Hc; [done|].
      destruct (accept line) eqn:Ha; [|done].
      apply (Hstep i line st); try done. by apply hs_contains_false.
Qed.

Lemma selected_scanned prefix items maxSelectionCount g :
  selected prefix items maxSelectionCount g =
  {| selection := slots (scanned prefix items maxSelectionCount);
     selectionBytes :=
       selectionBytes
         (allocSelection (int_of_size_t (sizeof_char_ptr * maxSelectionCount)) g);
     selectionSize := selectionCount (scanned prefix items maxSelectionCount) |}.
Proof. reflexivity. Qed.

Lemma selected_forgets prefix items maxSelectionCount g g' :
  selected prefix items maxSelectionCount g =
  selected prefix items maxSelectionCount g'.
Proof. reflexivity. Qed.

Lemma selected_size prefix items maxSelectionCount g :
  selectionSize (selected prefix items maxSelectionCount g) =
  Z.of_nat (length (selection (selected prefix items maxSelectionCount g))).
Proof. reflexivity. Qed.

(** A property of the loop state that holds for the empty selection and
    that every stored entry keeps holds when the loops are done. *)
Lemma scanned_invariant (I : scan → Prop) prefix items maxSelectionCount :
  I {| slots := []; set := hs_init |} →
  (∀ i line st,
      items !! i = Some line → I st →
      selectionCount st < maxSelectionCount →
      line ∉ set st → accepted_by prefix line →
      I (take_item i line st)) →
  I (scanned prefix items maxSelectionCount).
Proof.
  intros Hinit Hstep. unfold scanned.
  set (st1 := scan_unchecked _ _ _ _ _).
  assert (I st1) as Hst1.
  { apply scan_unchecked_invariant with (all := items); [|done|done].
    intros i line st ? ? ? ? ?. apply Hstep; try done. by left. }
  destruct prefix as [p|]; [|done].
  destruct (selectionCount st1 <? maxSelectionCount); [|done].
  apply scan_unchecked_invariant with (all := items); [|done|done].
  intros i line st ? ? ? ? ?. apply Hstep; try done. right. by exists p.
Qed.


(** ** The buffer *)

(** In a buffer with room for [maxSelectionCount] pointers no store of
    the loop falls outside. *)
Lemma scan_loop_room accept maxSelectionCount bytes items :
  (0 < maxSelectionCount → sizeof_char_ptr * maxSelectionCount ≤ bytes) →
  ∀ i st,
    scan_loop accept maxSelectionCount bytes i items st =
    Some (scan_unchecked accept maxSelectionCount i items st).
Proof.
  intros Hroom. induction items as [|line items IH]; intros i st; simpl; [done|].
  destruct (Z.ltb_spec (selectionCount st) maxSelectionCount) as [Hlt|]; [|done].
  destruct (hs_contains (set st) line); [apply IH|].
  destruct (accept line); [|apply IH].
  unfold store_fits.
  destruct (Z.leb_spec (sizeof_char_ptr * (selectionCount st + 1)) bytes) as [|Hout];
    [apply IH|].
  unfold selectionCount, sizeof_char_ptr in *. lia.
Qed.

(** A loop that ends has stored what the loop stores in a buffer with
    room for every store. *)
Lemma scan_loop_Some accept maxSelectionCount bytes items :
  ∀ i st st',
    scan_loop accept maxSelectionCount bytes i items st = Some st' →
    st' = scan_unchecked accept maxSelectionCount i items st.
Proof.
  induction items as [|line items IH]; intros i st st'; simpl; [congruence|].
  destruct (selectionCount st <? maxSelectionCount); [|congruence].
  destruct (hs_contains (set st) line); [apply IH|].
  destruct (accept line); [|apply IH].
  destruct (store_fits bytes st); [apply IH|done].
Qed.

(** The buffer [allocSelection] is asked for has room for the limit as
    long as the limit is below 2^28. *)
Lemma allocSelection_room maxSelectionCount g :
  maxSelectionCount < 2 ^ 28 →
  0 < maxSelectionCount →
  sizeof_char_ptr * maxSelectionCount ≤
  selectionBytes
    (allocSelection (int_of_size_t (sizeof_char_ptr * maxSelectionCount)) g).
Proof.
  intros Hlt Hpos. unfold allocSelection, int_of_size_t, sizeof_char_ptr. cbn [selectionBytes].
  rewrite Z.mod_small by lia.
  destruct (Z.ltb_spec (8 * maxSelectionCount) (2 ^ 31)); [|lia].
  destruct (Z.ltb_spec 0 (8 * maxSelectionCount)); lia.
Qed.

(** With a limit below 2^28 [makeSelection] returns, and what it leaves
    is [selected]. *)
Lemma makeSelection_returns prefix items maxSelectionCount g :
  maxSelectionCount < 2 ^ 28 →
  makeSelection prefix items maxSelectionCount g =
  Some (selected prefix items maxSelectionCount g).
Proof.
  intros Hlt. unfold makeSelection, selected, scanned.
  set (bytes := selectionBytes (allocSelection _ g)).
  assert (0 < maxSelectionCount → sizeof_char_ptr * maxSelectionCount ≤ bytes) as Hroom.
  { by apply allocSelection_room. }
  cbn [selection allocSelection].
  rewrite (scan_loop_room _ _ _ _ Hroom). cbn [mbind option_bind].
  destruct prefix as [p|]; [|done].
  destruct (_ <? maxSelectionCount); [|done].
  by rewrite (scan_loop_room _ _ _ _ Hroom).
Qed.

(** Whenever [makeSelection] returns, what it leaves is [selected]. *)
Lemma makeSelection_Some prefix items maxSelectionCount g g' :
  makeSelection prefix items maxSelectionCount g = Some g' →
  g' = selected prefix items maxSelectionCount g.
Proof.
  unfold makeSelection, selected, scanned.
  set (bytes := selectionBytes (allocSelection _ g)).
  cbn [selection allocSelection].
  destruct (scan_loop (accept1 prefix) _ _ _ _ _) as [st1|] eqn:H1; [|done].
  apply scan_loop_Some in H1 as <-. cbn [mbind option_bind].
  destruct prefix as [p|]; [|by intros [= <-]].
  destruct (_ <? maxSelectionCount); [|by intros [= <-]].
  destruct (scan_loop (accept2 p) _ _ _ _ _) as [st2|] eqn:H2; [|done].
  apply scan_loop_Some in H2 as <-. by intros [= <-].
Qed.

(** Every stored pointer is the address of a history line. *)
Lemma scanned_pointers prefix items maxSelectionCount p :
  p ∈ slots (scanned prefix items maxSelectionCount) →
  ∃ line, items !! p = Some line ∧ accepted_by prefix line.
Proof.
  revert p.
  apply (scanned_invariant
           (λ st, ∀ p, p ∈ slots st → ∃ line, items !! p = Some line ∧ accepted_by prefix line)).
  - simpl. intros p Hp. by apply elem_of_nil in Hp.
  - intros i line st Hi IH _ _ Hacc p. unfold take_item. simpl.
    rewrite elem_of_app, list_elem_of_singleton. intros [Hp| ->]; [by apply IH|].
    by exists line.
Qed.

Lemma line_of_lookup items p line : items !! p = Some line → line_of items p = line.
Proof. unfold line_of. by intros ->. Qed.

(** The texts of the stored entries are pairwise different, and all of
    them are in the hash set. *)
Lemma scanned_NoDup prefix items maxSelectionCount :
  NoDup (line_of items <$> slots (scanned prefix items maxSelectionCount)).
Proof.
  enough (NoDup (line_of items <$> slots (scanned prefix items maxSelectionCount)) ∧
          ∀ p, p ∈ slots (scanned prefix items maxSelectionCount) →
               line_of items p ∈ set (scanned prefix items maxSelectionCount)) as [? _]; [done|].
  apply (scanned_invariant
           (λ st, NoDup (line_of items <$> slots st) ∧
                  ∀ p, p ∈ slots st → line_of items p ∈ set st)).
  - simpl. split; [constructor|]. intros p Hp. by apply elem_of_nil in Hp.
  - intros i line st Hi [Hnd Hin] _ Hnew _. unfold take_item. simpl. split.
    + rewrite fmap_app. simpl. apply NoDup_app. split; [done|]. split.
      * intros x Hx ->%list_elem_of_singleton.
        apply list_elem_of_fmap in Hx as (p & Hp & Hps).
        rewrite (line_of_lookup _ _ _ Hi) in Hp. subst line. by apply Hnew, Hin.
      * apply NoDup_singleton.
    + intros p. rewrite elem_of_app, list_elem_of_singleton, elem_of_hs_add.
      intros [Hp| ->]; [right; by apply Hin | left; by apply line_of_lookup].
Qed.

(** ** The selection as a filter of the history *)

(** One loop appends, up to the limit, the first occurrences of the lines
    that pass its test, as long as the set holds exactly the passing
    lines that come earlier in the array. *)
Lemma scan_unchecked_slots accept maxSelectionCount (all : list string) :
  ∀ items i st,
    drop i all = items →
    (∀ line, accept line = true → line ∈ set st ↔ line ∈ take i all) →
    slots (scan_unchecked accept maxSelectionCount i items st) =
    slots st ++ take (Z.to_nat (maxSelectionCount - selectionCount st))
                     (filter (first_accepted accept all) (seq i (length items))).
Proof.
  intros items. induction items as [|line items IH]; intros i st Hdrop Hset; simpl.
  - by rewrite filter_nil, take_nil, app_nil_r.
  - assert (all !! i = Some line) as Hline.
    { rewrite <- (Nat.add_0_r i), <- lookup_drop, Hdrop. done. }
    assert (drop (S i) all = items) as Hdrop'.
    { rewrite (drop_S _ _ _ Hline) in Hdrop. congruence. }
    assert (take (S i) all = take i all ++ [line]) as Htake by by apply take_S_r.
    destruct (Z.ltb_spec (selectionCount st) maxSelectionCount) as [Hlt|Hge]; cycle 1.
    { replace (Z.to_nat _) with 0%nat by lia. by rewrite take_0, app_nil_r. }
    destruct (hs_contains (set st) line) eqn:Hc; [|destruct (accept line) eqn:Ha].
    + apply hs_contains_true in Hc.
      rewrite filter_cons_False; cycle 1.
      { unfold first_accepted. rewrite (line_of_lookup _ _ _ Hline).
        intros [Ha Hnew]. by apply Hnew, Hset. }
      apply IH; [done|]. intros x Hx. rewrite Htake, elem_of_app, list_elem_of_singleton.
      rewrite (Hset x Hx). split; [by left|]. intros [?| ->]; [done|]. by apply Hset.
    + apply hs_contains_false in Hc.
      rewrite filter_cons_True; cycle 1.
      { unfold first_accepted. rewrite (line_of_lookup _ _ _ Hline).
        split; [done|]. by rewrite <- Hset. }
      rewrite IH; [|done|].
      * rewrite selectionCount_take_item. unfold take_item at 1. simpl.
        replace (Z.to_nat (maxSelectionCount - selectionCount st))
          with (S (Z.to_nat (maxSelectionCount - (selectionCount st + 1)))) by lia.
        simpl. by rewrite <- app_assoc.
      * intros x Hx. unfold take_item. simpl.
        rewrite elem_of_hs_add, Htake, elem_of_app, list_elem_of_singleton, (Hset x Hx).
        tauto.
    + rewrite filter_cons_False; cycle 1.
      { unfold first_accepted. rewrite (line_of_lookup _ _ _ Hline). intros [? _]. congruence. }
      apply IH; [done|]. intros x Hx. rewrite Htake, elem_of_app, list_elem_of_singleton.
      rewrite (Hset x Hx). split; [by left|]. intros [?| ->]; [done|]. congruence.
Qed.

(** The hash set only ever receives lines that passed the test. *)
Lemma scan_unchecked_set accept maxSelectionCount (items : list string) st x :
  x ∈ set (scan_unchecked accept maxSelectionCount 0 items st) →
  x ∈ set st ∨ accept x = true.
Proof.
  revert x.
  apply (scan_unchecked_invariant (λ st', ∀ x, x ∈ set st' → x ∈ set st ∨ accept x = true)
           accept maxSelectionCount items); [|done|by left].
  intros i line st' _ IH _ _ Ha x. unfold take_item. simpl.
  rewrite elem_of_hs_add. intros [->|Hx]; [by right | by apply IH].
Qed.

(** The selection is the first [maxSelectionCount] entries of what the
    first loop accepts followed by what the second loop accepts. *)
Lemma selected_accepted prefix items maxSelectionCount g :
  selection (selected prefix items maxSelectionCount g) =
  take (Z.to_nat maxSelectionCount)
       (accepted (accept1 prefix) items ++
        match prefix with
        | Some p => accepted (accept2 p) items
        | None => []
        end).
Proof.
  rewrite selected_scanned. simpl. unfold scanned.
  set (st0 := {| slots := []; set := hs_init |}).
  set (st1 := scan_unchecked (accept1 prefix) maxSelectionCount 0 items st0).
  assert (slots st1 = take (Z.to_nat maxSelectionCount) (accepted (accept1 prefix) items))
    as Hst1.
  { unfold st1. rewrite (scan_unchecked_slots _ _ items); [|done|].
    - unfold st0, selectionCount. simpl. by rewrite Z.sub_0_r.
    - intros line _. unfold st0, hs_init. simpl. rewrite take_0. set_solver. }
  assert (selectionCount st1 =
          Z.of_nat (length (take (Z.to_nat maxSelectionCount)
                                 (accepted (accept1 prefix) items)))) as Hcount.
  { unfold selectionCount. by rewrite Hst1. }
  rewrite length_take in Hcount.
  destruct prefix as [p|]; cycle 1.
  { by rewrite app_nil_r. }
  destruct (Z.ltb_spec (selectionCount st1) maxSelectionCount) as [Hlt|Hge].
  - rewrite (scan_unchecked_slots _ _ items); [|done|]; cycle 1.
    { intros line Ha. rewrite take_0. split; [|by intros ?%elem_of_nil].
      intros [Hin|Ha1]%scan_unchecked_set.
      - unfold st0, hs_init in Hin. simpl in Hin. set_solver.
      - apply accept1_not_accept2 in Ha1. congruence. }
    rewrite Hst1, take_app.
    rewrite (take_ge (accepted _ _)) by lia.
    do 2 f_equal. lia.
  - rewrite Hst1, take_app.
    replace (Z.to_nat maxSelectionCount - length _)%nat with 0%nat by lia.
    by rewrite take_0, app_nil_r.
Qed.

Lemma starts_with_is_prefix fragment line :
  Spec.starts_with fragment line ↔ is_prefix fragment line = true.
Proof. symmetry. apply is_prefix_spec. Qed.

Lemma contains_strstr fragment line :
  Spec.contains fragment line ↔ is_Some (strstr line fragment).
Proof.
  split.
  - intros (before & after & ->). induction before as [|a before IH].
    + rewrite append_nil. exists 0%nat. apply strstr_zero, is_prefix_spec. by exists after.
    + rewrite append_cons. simpl. destruct (is_prefix _ _); [by eexists|].
      destruct IH as [k ->]. by eexists.
  - intros [k Hk]. apply strstr_occurrence in Hk as (before & after & -> & _).
    by exists before, after.
Qed.

#[global] Instance starts_with_dec fragment line : Decision (Spec.starts_with fragment line).
Proof.
  refine (cast_if (decide (is_prefix fragment line = true)));
    by rewrite starts_with_is_prefix.
Defined.

#[global] Instance contains_dec fragment line : Decision (Spec.contains fragment line).
Proof.
  refine (cast_if (decide (is_Some (strstr line fragment))));
    by rewrite contains_strstr.
Defined.

#[global] Instance substring_only_dec fragment line :
  Decision (Spec.substring_only fragment line).
Proof. unfold Spec.substring_only. apply _. Defined.

Lemma accept1_starts_with fragment line :
  accept1 (Some fragment) line = true ↔ Spec.starts_with fragment line.
Proof.
  unfold accept1. rewrite bool_decide_eq_true, strstr_zero. symmetry.
  apply starts_with_is_prefix.
Qed.

Lemma accept2_substring_only fragment line :
  accept2 fragment line = true ↔ Spec.substring_only fragment line.
Proof.
  unfold Spec.substring_only. rewrite contains_strstr, starts_with_is_prefix, <- strstr_zero.
  unfold accept2. destruct (strstr line fragment) as [[|k]|]; split; try done.
  - intros [_ H]. by destruct H.
  - intros [[? [=]] _].
Qed.

Lemma unique_from_seen seen seen' lines :
  (∀ x, x ∈ lines → x ∈ seen ↔ x ∈ seen') →
  Spec.unique_from seen lines = Spec.unique_from seen' lines.
Proof.
  revert seen seen'. induction lines as [|line lines IH]; intros seen seen' Hseen; [done|].
  simpl. assert (line ∈ seen ↔ line ∈ seen') as Hline by (apply Hseen; left).
  destruct (decide (line ∈ seen)), (decide (line ∈ seen')); try tauto.
  - apply IH. intros x Hx. apply Hseen. by right.
  - f_equal. apply IH. intros x Hx. rewrite !elem_of_cons, (Hseen x); [done|by right].
Qed.

(** The texts at the indices a loop accepts are the lines that pass its
    test, each kept where it first occurs. *)
Lemma accepted_texts_from accept (P : string → Prop) `{!∀ x, Decision (P x)}
    (all : list string) :
  (∀ line, accept line = true ↔ P line) →
  ∀ items i,
    drop i all = items →
    line_of all <$> filter (first_accepted accept all) (seq i (length items)) =
    Spec.unique_from (take i all) (filter P items).
Proof.
  intros HP items. induction items as [|line items IH]; intros i Hdrop; [done|].
  assert (all !! i = Some line) as Hline.
  { rewrite <- (Nat.add_0_r i), <- lookup_drop, Hdrop. done. }
  assert (drop (S i) all = items) as Hdrop'.
  { rewrite (drop_S _ _ _ Hline) in Hdrop. congruence. }
  specialize (IH (S i) Hdrop'). rewrite (take_S_r _ _ _ Hline) in IH.
  simpl. destruct (decide (P line)) as [HPl|HPl].
  - rewrite (filter_cons_True P) by done. simpl.
    destruct (decide (line ∈ take i all)) as [Hin|Hin].
    + rewrite filter_cons_False; cycle 1.
      { unfold first_accepted. rewrite (line_of_lookup _ _ _ Hline). tauto. }
      rewrite IH. apply unique_from_seen. intros x _.
      rewrite elem_of_app, list_elem_of_singleton. split; [|tauto]. by intros [?| ->].
    + rewrite filter_cons_True; cycle 1.
      { unfold first_accepted. rewrite (line_of_lookup _ _ _ Hline). split; [by apply HP|done]. }
      rewrite fmap_cons, (line_of_lookup _ _ _ Hline), IH. f_equal.
      apply unique_from_seen. intros x _.
      rewrite elem_of_app, list_elem_of_singleton, elem_of_cons. tauto.
  - rewrite (filter_cons_False P) by done.
    rewrite filter_cons_False; cycle 1.
    { unfold first_accepted. rewrite (line_of_lookup _ _ _ Hline), HP. tauto. }
    rewrite IH. apply unique_from_seen. intros x Hx%list_elem_of_filter.
    rewrite elem_of_app, list_elem_of_singleton. split; [|tauto].
    intros [?| ->]; [done|]. tauto.
Qed.

Lemma accepted_texts accept (P : string → Prop) `{!∀ x, Decision (P x)}
    (all : list string) :
  (∀ line, accept line = true ↔ P line) →
  line_of all <$> accepted accept all = Spec.unique (filter P all).
Proof.
  intros HP. unfold accepted, Spec.unique.
  by rewrite (accepted_texts_from accept P all HP all 0%nat).
Qed.

(** ** The filter: order, duplicates, bound, content *)

(** With a fragment, the texts of [selected] are, up to the limit, the
    lines that start with the fragment, each where it first occurs in the
    history, followed by the lines that contain the fragment only at a
    later offset, each where it first occurs. *)
Lemma selected_phase_order (history : list string) (fragment : string)
    (limit : Z) (g : globals) :
  selection_text history (selected (Some fragment) history limit g) =
    take (Z.to_nat limit)
         (Spec.unique (filter (Spec.starts_with fragment) history) ++
          Spec.unique (filter (Spec.substring_only fragment) history)).
Proof.
  unfold selection_text.
  rewrite selected_accepted, fmap_take, fmap_app.
  rewrite (accepted_texts _ (Spec.starts_with fragment)) by apply accept1_starts_with.
  by rewrite (accepted_texts _ (Spec.substring_only fragment))
    by apply accept2_substring_only.
Qed.

Lemma selected_abcd (room : nat) (g : globals) :
  selection_text ["abcd"; "xabc"; "abce"]
    (selected (Some "ab") ["abcd"; "xabc"; "abce"] (3 + Z.of_nat room) g)
  = ["abcd"; "abce"; "xabc"].
Proof.
  rewrite selected_phase_order.
  rewrite take_ge; [by vm_compute|].
  transitivity 3%nat; [by vm_compute | lia].
Qed.

(** No two entries of [selected] have the same text; the entry kept for a
    text is the first line of the history with that text. *)
Lemma selected_no_duplicates (prefix : option string) (history : list string)
    (limit : Z) (g : globals) :
  NoDup (selection_text history (selected prefix history limit g)) ∧
  Forall (λ p, line_of history p ∉ take p history)
         (selection (selected prefix history limit g)).
Proof.
  split.
  - unfold selection_text. rewrite selected_scanned. simpl. apply scanned_NoDup.
  - apply Forall_forall. intros p. rewrite selected_accepted.
    intros Hp%(subseteq_take (Z.to_nat limit)).
    apply elem_of_app in Hp as [Hp|Hp].
    + by apply list_elem_of_filter in Hp as [[_ ?] _].
    + destruct prefix; [|by apply elem_of_nil in Hp].
      by apply list_elem_of_filter in Hp as [[_ ?] _].
Qed.


(** With a fragment, every entry of [selected] is the address of a line
    of the history, and that line contains the fragment: as its first
    bytes, or only at a later offset. *)
Lemma selected_entries (history : list string) (fragment : string)
    (limit : Z) (g : globals) :
  Forall (λ p, ∃ line, history !! p = Some line ∧
                       Spec.contains fragment line ∧
                       (Spec.starts_with fragment line ∨
                        Spec.substring_only fragment line))
         (selection (selected (Some fragment) history limit g)).
Proof.
  apply Forall_forall. intros p Hp. rewrite selected_scanned in Hp. cbn [selection] in Hp.
  apply scanned_pointers in Hp as (line & Hline & Hacc).
  exists line. split; [done|].
  destruct Hacc as [H1|(f & [= <-] & H2)].
  - apply accept1_starts_with in H1. split; [|by left].
    destruct H1 as [rest ->]. by exists EmptyString, rest.
  - apply accept2_substring_only in H2. split; [by destruct H2|by right].
Qed.

(** C1, for the limits the buffer has room for.  With a fragment and a
    limit below 2^28, [makeSelection] returns, and the texts it leaves
    are, up to the limit, the lines that start with the fragment, each
    where it first occurs in the history, followed by the lines that
    contain the fragment only at a later offset, each where it first
    occurs.  For the history "abcd", "xabc", "abce" and the fragment "ab"
    the result is "abcd", "abce", "xabc" as soon as three lines fit. *)
Theorem makeSelection_phase_order (history : list string) (fragment : string)
    (limit : Z) (g : globals) :
  (limit < 2 ^ 28 →
   ∃ g', makeSelection (Some fragment) history limit g = Some g' ∧
         selection_text history g' =
           take (Z.to_nat limit)
                (Spec.unique (filter (Spec.starts_with fragment) history) ++
                 Spec.unique (filter (Spec.substring_only fragment) history)))
  ∧ ∀ room : nat,
      3 + Z.of_nat room < 2 ^ 28 →
      ∃ g', makeSelection (Some "ab") ["abcd"; "xabc"; "abce"] (3 + Z.of_nat room) g
              = Some g' ∧
            selection_text ["abcd"; "xabc"; "abce"] g' = ["abcd"; "abce"; "xabc"].
Proof.
  split.
  - intros Hlimit. eexists. split; [by apply makeSelection_returns|].
    apply selected_phase_order.
  - intros room Hlimit. eexists. split; [by apply makeSelection_returns|].
    apply selected_abcd.
Qed.

(** C1 at the limit 2^28: the size of the buffer, 8 * 2^28 bytes, is the
    [int] -2^31 when [allocSelection] receives it, no buffer is
    allocated, and the first store of the first loop goes through the
    null pointer. *)
Lemma phase_order_without_buffer :
  int_of_size_t (sizeof_char_ptr * 2 ^ 28) = - 2 ^ 31 ∧
  selectionBytes (allocSelection (int_of_size_t (sizeof_char_ptr * 2 ^ 28)) no_globals) = 0 ∧
  makeSelection (Some "ab") ["abcd"; "xabc"; "abce"] (2 ^ 28) no_globals = None.
Proof. repeat split; vm_compute; reflexivity. Qed.

Lemma makeSelection_phase_order_witness :
  2 < 2 ^ 28 ∧
  (∃ g', makeSelection (Some "g") shell_history 2 no_globals = Some g' ∧
         selection_text shell_history g' = ["git status"; "go build"]) ∧
  3 + Z.of_nat 7 < 2 ^ 28 ∧
  ∃ g', makeSelection (Some "ab") ["abcd"; "xabc"; "abce"] (3 + Z.of_nat 7) no_globals
          = Some g' ∧
        selection_text ["abcd"; "xabc"; "abce"] g' = ["abcd"; "abce"; "xabc"].
Proof.
  assert (2 < 2 ^ 28) as Hlimit by reflexivity.
  assert (3 + Z.of_nat 7 < 2 ^ 28) as Hroom by reflexivity.
  split; [exact Hlimit|]. split.
  - destruct (proj1 (makeSelection_phase_order shell_history "g" 2 no_globals) Hlimit)
      as (g' & Hg & Ht).
    exists g'. split; [exact Hg|]. rewrite Ht. vm_compute. reflexivity.
  - split; [exact Hroom|].
    exact (proj2 (makeSelection_phase_order [] "" 0 no_globals) 7%nat Hroom).
Defined.

(** C2, for the limits the buffer has room for.  Whatever the history and
    the fragment (given or not), with a limit below 2^28
    [makeSelection] returns, and no two entries of the selection have
    the same text; the entry kept for a text is the first line of the
    history with that text. *)
Theorem makeSelection_no_duplicates (prefix : option string) (history : list string)
    (limit : Z) (g : globals) :
  limit < 2 ^ 28 →
  ∃ g', makeSelection prefix history limit g = Some g' ∧
        NoDup (selection_text history g') ∧
        Forall (λ p, line_of history p ∉ take p history) (selection g').
Proof.
  intros Hlimit. eexists. split; [by apply makeSelection_returns|].
  apply selected_no_duplicates.
Qed.

(** C2 at the limit 2^29+1: the size of the buffer, 8 * (2^29+1) bytes, is
    the [int] 8 when [allocSelection] receives it, the buffer has one
    slot, and the second store falls outside it. *)
Lemma no_duplicates_in_one_slot :
  int_of_size_t (sizeof_char_ptr * (2 ^ 29 + 1)) = 8 ∧
  makeSelection None ["a"; "b"; "a"] (2 ^ 29 + 1) no_globals = None.
Proof. split; vm_compute; reflexivity. Qed.

Lemma makeSelection_no_duplicates_witness :
  10 < 2 ^ 28 ∧
  ∃ g', makeSelection None ["a"; "b"; "a"] 10 no_globals = Some g' ∧
        NoDup (selection_text ["a"; "b"; "a"] g') ∧
        Forall (λ p, line_of ["a"; "b"; "a"] p ∉ take p ["a"; "b"; "a"]) (selection g').
Proof.
  assert (10 < 2 ^ 28) as Hlimit by reflexivity.
  split; [exact Hlimit|].
  exact (makeSelection_no_duplicates None ["a"; "b"; "a"] 10 no_globals Hlimit).
Defined.




(** C10, for the limits the buffer has room for.  With a fragment and a
    limit below 2^28, [makeSelection] returns, and every entry of the
    selection is the address of a line of the history, and that line
    contains the fragment: as its first bytes, or only at a later
    offset. *)
Theorem makeSelection_entries (history : list string) (fragment : string)
    (limit : Z) (g : globals) :
  limit < 2 ^ 28 →
  ∃ g', makeSelection (Some fragment) history limit g = Some g' ∧
        Forall (λ p, ∃ line, history !! p = Some line ∧
                             Spec.contains fragment line ∧
                             (Spec.starts_with fragment line ∨
                              Spec.substring_only fragment line))
               (selection g').
Proof.
  intros Hlimit. eexists. split; [by apply makeSelection_returns|].
  apply selected_entries.
Qed.

(** C10 at the limit 2^28: no buffer is allocated, and the store of the
    first line that starts with the fragment goes through the null
    pointer. *)
Lemma entries_without_buffer :
  selectionBytes (allocSelection (int_of_size_t (sizeof_char_ptr * 2 ^ 28)) no_globals) = 0 ∧
  makeSelection (Some "g") shell_history (2 ^ 28) no_globals = None.
Proof. split; vm_compute; reflexivity. Qed.

Lemma makeSelection_entries_witness :
  10 < 2 ^ 28 ∧
  ∃ g', makeSelection (Some "o") shell_history 10 no_globals = Some g' ∧
        Forall (λ p, ∃ line, shell_history !! p = Some line ∧
                             Spec.contains "o" line ∧
                             (Spec.starts_with "o" line ∨
                              Spec.substring_only "o" line))
               (selection g').
Proof.
  assert (10 < 2 ^ 28) as Hlimit by reflexivity.
  split; [exact Hlimit|].
  exact (makeSelection_entries shell_history "o" 10 no_globals Hlimit).
Defined.

(** ** The keys *)

Lemma step_classify history maxHistoryItems c s :
  step history maxHistoryItems c s =
  match classify c with
  | KIgnored | KEscape => Running s
  | KBackspace => on_backspace history maxHistoryItems s
  | KUp => on_up s
  | KDown => on_down s
  | KEnter => on_enter history s
  | KText => on_default history maxHistoryItems c s
  end.
Proof.
  unfold step, classify, on_default.
  destruct ((c =? KEY_TERMINAL_RESIZE) || (c =? KEY_CTRL_A) || (c =? KEY_CTRL_E)); [done|].
  destruct (c =? 91); [done|].
  destruct ((c =? KEY_BACKSPACE) || (c =? 127)); [done|].
  destruct ((c =? KEY_UP) || (c =? 65)); [done|].
  destruct ((c =? KEY_DOWN) || (c =? 66)); [done|].
  destruct (c =? 10); [done|].
  by destruct (c =? 27).
Qed.

Lemma classify_KText_not_escape c : classify c = KText → (c =? 27) = false.
Proof.
  unfold classify.
  destruct ((c =? KEY_TERMINAL_RESIZE) || (c =? KEY_CTRL_A) || (c =? KEY_CTRL_E)); [done|].
  destruct (c =? 91); [done|].
  destruct ((c =? KEY_BACKSPACE) || (c =? 127)); [done|].
  destruct ((c =? KEY_UP) || (c =? 65)); [done|].
  destruct ((c =? KEY_DOWN) || (c =? 66)); [done|].
  destruct (c =? 10); [done|].
  by destruct (c =? 27).
Qed.

Lemma printSelection_Some maxHistoryItems prefix history g g' r :
  printSelection maxHistoryItems prefix history g = Some (g', r) →
  g' = selected prefix history maxHistoryItems g ∧ r = head_text history g'.
Proof.
  unfold printSelection.
  destruct (makeSelection _ _ _ _) as [g1|] eqn:Hg1; [|done].
  apply makeSelection_Some in Hg1 as ->. cbn [mbind option_bind].
  intros [= <- <-]. split; [done|].
  unfold head_text, selected, selectionCount. cbn [selection].
  by destruct (slots _).
Qed.

Lemma printSelection_returns maxHistoryItems prefix history g :
  maxHistoryItems < 2 ^ 28 →
  printSelection maxHistoryItems prefix history g =
  Some (selected prefix history maxHistoryItems g,
        head_text history (selected prefix history maxHistoryItems g)).
Proof.
  intros Hlt. unfold printSelection. rewrite makeSelection_returns by done.
  cbn [mbind option_bind]. do 2 f_equal.
  unfold head_text. rewrite selected_size. by destruct (selection _).
Qed.

(** What a key that rebuilds the selection leaves behind. *)
Lemma edit_step history maxHistoryItems c s s' :
  is_edit c = true →
  step history maxHistoryItems c s = Running s' →
  globs s' = selected (Some (prefix s')) history maxHistoryItems no_globals ∧
  result s' = head_text history (globs s') ∧
  selectionCursorPosition s' = selectionCursorPosition s ∧
  previousSelectionCursorPosition s' = previousSelectionCursorPosition s.
Proof.
  unfold is_edit. rewrite step_classify. destruct (classify c) eqn:Hc; try done; intros _.
  - unfold on_backspace.
    set (p := if 0 <? strlen (prefix s) then _ else _).
    destruct (if 0 <? strlen p then _ else _) as [g|]; [|done]. cbn [mbind option_bind].
    destruct (printSelection _ _ _ _) as [[g' r]|] eqn:Hp; [|done].
    apply printSelection_Some in Hp as [-> ->].
    intros [= <-]. by cbn.
  - unfold on_default. rewrite (classify_KText_not_escape _ Hc).
    destruct (key_text c) as [typed|]; [|done].
    destruct (_ <? PREFIX_SIZE); [|done].
    destruct (printSelection _ _ _ _) as [[g' r]|] eqn:Hp; [|done].
    apply printSelection_Some in Hp as [-> ->].
    intros [= <-]. by cbn.
Qed.

(** What any other key that lets the loop go on leaves untouched. *)
Lemma other_step history maxHistoryItems c s s' :
  is_edit c = false →
  step history maxHistoryItems c s = Running s' →
  globs s' = globs s ∧ prefix s' = prefix s ∧ result s' = result s.
Proof.
  unfold is_edit. rewrite step_classify. destruct (classify c); try done; intros _.
  - by intros [= <-].
  - unfold on_up. destruct (_ >? _); by intros [= <-].
  - unfold on_down. by intros [= <-].
  - unfold on_enter. destruct (negb _); [|done]. by destruct (selection_at _ _).
  - by intros [= <-].
Qed.


(** The first drawing: what it leaves when it has a result, and that it
    has one for a limit below 2^28. *)
Lemma start_Some history limit g r :
  printSelection limit None history no_globals = Some (g, r) →
  start history limit = entry (selected None history limit no_globals).
Proof.
  intros Hp. unfold start. rewrite Hp. by apply printSelection_Some in Hp as [-> _].
Qed.

Lemma start_returns history limit :
  limit < 2 ^ 28 →
  start history limit = entry (selected None history limit no_globals).
Proof.
  intros Hlt. eapply start_Some. by apply printSelection_returns.
Qed.

Lemma selectionLoop_returns history limit turns :
  limit < 2 ^ 28 →
  selectionLoop history limit turns = run history turns (start history limit).
Proof.
  intros Hlt. unfold selectionLoop. by rewrite printSelection_returns.
Qed.

Lemma selectionLoop_Running history limit turns s :
  selectionLoop history limit turns = Running s →
  run history turns (start history limit) = Running s ∧
  start history limit = entry (selected None history limit no_globals).
Proof.
  unfold selectionLoop.
  destruct (printSelection _ _ _ _) as [[g r]|] eqn:Hp; [|done].
  intros Hrun. split; [done|]. by eapply start_Some.
Qed.

(** ** Runs of the loop *)

Lemma run_app history turns1 turns2 s :
  run history (turns1 ++ turns2) s =
  match run history turns1 s with
  | Running s' => run history turns2 s'
  | o => o
  end.
Proof.
  revert s. induction turns1 as [|[m c] turns1 IH]; intros s; [done|].
  simpl. destruct (step history m c s); [apply IH|done..].
Qed.


(** After a run, [result] is the text of the first entry of the selection
    if a key has rebuilt the selection; otherwise the selection, the
    fragment and [result] are what they were. *)
Lemma run_result history turns :
  ∀ s0 s,
    run history turns s0 = Running s →
    if existsb (λ t, is_edit t.2) turns
    then result s = head_text history (globs s)
    else globs s = globs s0 ∧ prefix s = prefix s0 ∧ result s = result s0.
Proof.
  induction turns as [|[m c] turns IH]; intros s0 s; simpl.
  - by intros [= <-].
  - destruct (step history m c s0) as [s1| |] eqn:Hs1; [|done..].
    intros Hrun. specialize (IH s1 s Hrun).
    destruct (existsb _ turns).
    + by rewrite orb_true_r.
    + rewrite orb_false_r. destruct IH as (Hg & Hp & Hr).
      destruct (is_edit c) eqn:Hc.
      * apply (edit_step _ _ _ _ _ Hc) in Hs1 as (_ & Hr1 & _). congruence.
      * apply (other_step _ _ _ _ _ Hc) in Hs1 as (? & ? & ?).
        repeat split; congruence.
Qed.

(** ** Enter *)

(** C5, as the code has it.  With the cursor in the prompt, Enter ends
    the loop; the text returned is the first entry of the selection (the
    empty text if there is none) once a character or a backspace has
    rebuilt the selection, and the empty text before that, whatever the
    history. *)
Theorem accept_at_prompt (history : list string) (maxHistoryItems0 : Z)
    (turns : list (Z * Z)) (s : session) (maxHistoryItems : Z) :
  selectionLoop history maxHistoryItems0 turns = Running s →
  selectionCursorPosition s = SELECTION_CURSOR_IN_PROMPT →
  step history maxHistoryItems 10 s =
  Done (if existsb (λ t, is_edit t.2) turns
        then head_text history (globs s)
        else EmptyString).
Proof.
  intros [Hrun _]%selectionLoop_Running Hcur. apply run_result in Hrun.
  rewrite step_classify. change (classify 10) with KEnter. cbv iota.
  unfold on_enter. rewrite Hcur, Z.eqb_refl. cbn [negb].
  destruct (existsb _ turns); [by rewrite Hrun|].
  destruct Hrun as (_ & _ & ->). unfold start.
  by destruct (printSelection _ _ _ _) as [[? ?]|].
Qed.

(** ** Escape and the keys without a case *)

(** C6, as the code has it.  Escape does not end the loop: the turn
    leaves every variable as it was.  Only key 10 ends the loop. *)
Theorem escape_is_ignored (history : list string) (maxHistoryItems : Z) (s : session) :
  step history maxHistoryItems 27 s = Running s ∧
  ∀ c text, step history maxHistoryItems c s = Done text → c = 10.
Proof.
  split; [done|]. intros c text. rewrite step_classify.
  destruct (classify c) eqn:Hc; try done.
  - unfold on_backspace. by destruct (_ ≫= _) as [[? ?]|].
  - unfold on_up. by destruct (_ >? _).
  - intros _. clear text. unfold classify in Hc.
    destruct ((c =? KEY_TERMINAL_RESIZE) || (c =? KEY_CTRL_A) || (c =? KEY_CTRL_E)); [done|].
    destruct (c =? 91); [done|].
    destruct ((c =? KEY_BACKSPACE) || (c =? 127)); [done|].
    destruct ((c =? KEY_UP) || (c =? 65)); [done|].
    destruct ((c =? KEY_DOWN) || (c =? 66)); [done|].
    destruct (Z.eqb_spec c 10); [done|]. by destruct (c =? 27).
  - unfold on_default. destruct (c =? 27); [done|].
    destruct (key_text c); [|done]. destruct (_ <? _); [|done].
    by destruct (printSelection _ _ _ _) as [[? ?]|].
Qed.

(** C7, as the code has it.  The key codes 410, 1, 5, 91 and 27 leave
    every variable as it was.  A key code that no case names is not
    dropped: when its four bytes have a zero byte among them, the
    fragment with the bytes before it stays shorter than the 500 bytes of
    its buffer and the window leaves fewer than 2^28 rows to the list,
    these bytes are appended to the fragment and the selection is
    rebuilt with it; the cursor stays where it was. *)
Theorem keys_without_effect (history : list string) (maxHistoryItems c : Z) (s : session) :
  (c = 410 ∨ c = 1 ∨ c = 5 ∨ c = 91 ∨ c = 27 →
   step history maxHistoryItems c s = Running s) ∧
  (classify c = KText →
   maxHistoryItems < 2 ^ 28 →
   ∀ typed, key_text c = Some typed →
            strlen (prefix s +:+ typed) < PREFIX_SIZE →
            ∃ s', step history maxHistoryItems c s = Running s' ∧
                  prefix s' = prefix s +:+ typed ∧
                  makeSelection (Some (prefix s')) history maxHistoryItems (globs s) =
                    Some (globs s') ∧
                  selectionCursorPosition s' = selectionCursorPosition s).
Proof.
  split.
  - by intros [->|[->|[->|[->| ->]]]].
  - intros Hc Hrows typed Htyped Hlen. rewrite step_classify, Hc. unfold on_default.
    rewrite (classify_KText_not_escape _ Hc), Htyped.
    destruct (Z.ltb_spec (strlen (prefix s +:+ typed)) PREFIX_SIZE); [|lia].
    rewrite printSelection_returns by done.
    eexists. split; [reflexivity|]. cbn [prefix globs selectionCursorPosition].
    split; [done|]. split; [|done]. by apply makeSelection_returns.
Qed.

(** ** The cursor *)

(** Down with the cursor on a row of the selection: to the next row, and
    from the last row to the first. *)
Lemma down_in_selection history maxHistoryItems (s : session) :
  0 ≤ selectionCursorPosition s < selectionSize (globs s) →
  ∃ s', step history maxHistoryItems KEY_DOWN s = Running s' ∧
        selectionCursorPosition s' =
          (selectionCursorPosition s + 1) `mod` selectionSize (globs s) ∧
        globs s' = globs s ∧ prefix s' = prefix s.
Proof.
  intros Hk. eexists. split; [reflexivity|]. simpl. split; [|done].
  destruct (Z.ltb_spec (selectionCursorPosition s + 1) (selectionSize (globs s))).
  - by rewrite Z.mod_small by lia.
  - replace (selectionCursorPosition s + 1) with (selectionSize (globs s)) by lia.
    by rewrite Z.mod_same by lia.
Qed.

(** Down from the prompt when the selection has an entry: to the first row. *)
Lemma down_from_prompt history maxHistoryItems (s : session) :
  selectionCursorPosition s = SELECTION_CURSOR_IN_PROMPT →
  0 < selectionSize (globs s) →
  ∃ s', step history maxHistoryItems KEY_DOWN s = Running s' ∧
        selectionCursorPosition s' = 0 ∧
        globs s' = globs s ∧ prefix s' = prefix s.
Proof.
  intros Hcur Hsize. eexists. split; [reflexivity|]. simpl. rewrite Hcur.
  split; [|done]. unfold SELECTION_CURSOR_IN_PROMPT.
  by destruct (Z.ltb_spec (-1 + 1) (selectionSize (globs s))); [|lia].
Qed.


(** C8, where the code leaves it.  With an empty history the selection
    is empty; Down from the prompt nevertheless puts the cursor on row
    0, and Enter then reads a slot of the selection that was never
    written. *)
Theorem down_on_empty_selection :
  selection (globs (start [] 10)) = [] ∧
  selectionCursorPosition (start [] 10) = SELECTION_CURSOR_IN_PROMPT ∧
  ∃ s, step [] 10 KEY_DOWN (start [] 10) = Running s ∧
       selection (globs s) = [] ∧
       selectionCursorPosition s = 0 ∧
       step [] 10 10 s = Undefined.
Proof.
  split; [done|]. split; [done|]. eexists. split; [reflexivity|]. done.
Qed.

(** ** Typing and erasing *)

Lemma length_append s t :
  String.length (s +:+ t) = (String.length s + String.length t)%nat.
Proof.
  induction s as [|a s IH]; [done|]. rewrite append_cons. simpl. by rewrite IH.
Qed.











(** C4, where the code leaves it.  On [five_lines], with the cursor on
    the fifth row, the key [x] leaves a selection of two entries and the
    cursor on the fifth row, not in the prompt; Enter then reads a slot
    that was never written. *)
Theorem cursor_stays_out_of_range :
  selectionLoop five_lines 10 (keys 10 [KEY_DOWN; KEY_DOWN; KEY_DOWN; KEY_DOWN; KEY_DOWN])
    = Running fifth_row ∧
  step five_lines 10 120 fifth_row = Running fifth_row_x ∧
  selection_text five_lines (globs fifth_row_x) = ["xa"; "xb"] ∧
  selectionCursorPosition fifth_row_x = 4 ∧
  selectionCursorPosition fifth_row_x ≠ SELECTION_CURSOR_IN_PROMPT ∧
  step five_lines 10 10 fifth_row_x = Undefined.
Proof. repeat split; try (vm_compute; reflexivity). vm_compute. discriminate. Qed.

(** C5 on [shell_history]: Enter as the first key returns the empty
    text, not the first entry of the selection. *)
Lemma accept_in_initial_state :
  selectionCursorPosition (start shell_history 10) = SELECTION_CURSOR_IN_PROMPT ∧
  selection_text shell_history (globs (start shell_history 10)) =
    ["git status"; "go build"; "grep x"] ∧
  step shell_history 10 10 (start shell_history 10) = Done "" ∧
  step shell_history 10 10 (start shell_history 10) ≠ Done "git status".
Proof. repeat split; try (vm_compute; reflexivity). vm_compute. discriminate. Qed.

Lemma accept_at_prompt_witness :
  selectionLoop shell_history 10 (keys 10 [103]) = Running typed_g ∧
  selectionCursorPosition typed_g = SELECTION_CURSOR_IN_PROMPT ∧
  step shell_history 10 10 typed_g = Done "git status".
Proof.
  assert (selectionLoop shell_history 10 (keys 10 [103]) = Running typed_g)
    as Hrun by (vm_compute; reflexivity).
  split; [exact Hrun|]. split; [reflexivity|].
  exact (accept_at_prompt shell_history 10 (keys 10 [103]) typed_g 10 Hrun eq_refl).
Defined.

(** C6 on [shell_history]: Escape as the first key leaves the loop
    running in the state it was in; it does not return the empty text. *)
Lemma escape_does_not_end :
  step shell_history 10 27 (start shell_history 10) = Running (start shell_history 10) ∧
  step shell_history 10 27 (start shell_history 10) ≠ Done "".
Proof. split; [reflexivity|]. vm_compute. discriminate. Qed.

Lemma escape_is_ignored_witness :
  step shell_history 10 10 typed_g = Done "git status" ∧ 10 = 10.
Proof.
  assert (step shell_history 10 10 typed_g = Done "git status") as Hdone
    by (vm_compute; reflexivity).
  split; [exact Hdone|].
  exact (proj2 (escape_is_ignored shell_history 10 typed_g) 10 "git status" Hdone).
Defined.

(** C7 on [shell_history]: Ctrl-B, a key code outside the recognised
    events, puts a byte into the fragment and empties the selection. *)
Lemma ctrl_b_is_typed :
  classify KEY_CTRL_B = KText ∧
  prefix (start shell_history 10) = "" ∧
  selection (globs (start shell_history 10)) = [0; 1; 2]%nat ∧
  ∃ s, step shell_history 10 KEY_CTRL_B (start shell_history 10) = Running s ∧
       prefix s = ctrl_b_text ∧
       prefix s ≠ prefix (start shell_history 10) ∧
       selection (globs s) = [].
Proof.
  split; [reflexivity|]. split; [reflexivity|]. split; [vm_compute; reflexivity|].
  eexists. split; [vm_compute; reflexivity|]. simpl. repeat split. discriminate.
Qed.

Lemma keys_without_effect_witness :
  (KEY_TERMINAL_RESIZE = 410 ∨ KEY_TERMINAL_RESIZE = 1 ∨ KEY_TERMINAL_RESIZE = 5 ∨
   KEY_TERMINAL_RESIZE = 91 ∨ KEY_TERMINAL_RESIZE = 27) ∧
  step shell_history 10 KEY_TERMINAL_RESIZE typed_g = Running typed_g ∧
  classify KEY_CTRL_B = KText ∧
  10 < 2 ^ 28 ∧
  key_text KEY_CTRL_B = Some ctrl_b_text ∧
  strlen (prefix typed_g +:+ ctrl_b_text) < PREFIX_SIZE ∧
  ∃ s, step shell_history 10 KEY_CTRL_B typed_g = Running s ∧
       prefix s = prefix typed_g +:+ ctrl_b_text.
Proof.
  assert (KEY_TERMINAL_RESIZE = 410 ∨ KEY_TERMINAL_RESIZE = 1 ∨ KEY_TERMINAL_RESIZE = 5 ∨
          KEY_TERMINAL_RESIZE = 91 ∨ KEY_TERMINAL_RESIZE = 27) as Hkey by (left; reflexivity).
  assert (classify KEY_CTRL_B = KText) as Hclass by reflexivity.
  assert (10 < 2 ^ 28) as Hrows by reflexivity.
  assert (key_text KEY_CTRL_B = Some ctrl_b_text) as Htext by reflexivity.
  assert (strlen (prefix typed_g +:+ ctrl_b_text) < PREFIX_SIZE) as Hlen
    by (vm_compute; reflexivity).
  split; [exact Hkey|].
  split; [exact (proj1 (keys_without_effect shell_history 10 KEY_TERMINAL_RESIZE typed_g) Hkey)|].
  split; [exact Hclass|]. split; [exact Hrows|]. split; [exact Htext|]. split; [exact Hlen|].
  destruct (proj2 (keys_without_effect shell_history 10 KEY_CTRL_B typed_g)
                  Hclass Hrows ctrl_b_text Htext Hlen) as (s & Hs & Hp & _).
  exists s. split; [exact Hs | exact Hp].
Defined.



(** * The rest of the program *)

(** ** The lines of the history file *)

Lemma strchr_newline_None s : strchr s newline = None → newlines s = 0%nat.
Proof.
  induction s as [|a s IH]; simpl; [done|].
  destruct (Ascii.eqb a newline); [done|]. destruct (strchr s newline); [done|]. auto.
Qed.

Lemma strchr_newline_Some s k :
  strchr s newline = Some k →
  newlines s = S (newlines (skip_bytes (S k) s)) ∧ newlines (cut_at k s) = 0%nat.
Proof.
  revert k. induction s as [|a s IH]; intros k; simpl; [done|].
  destruct (Ascii.eqb a newline) eqn:Ha.
  - intros [= <-]. by destruct s.
  - destruct (strchr s newline) as [k'|]; [|done]. intros [= <-].
    destruct (IH k' eq_refl) as [IH1 IH2]. simpl. rewrite Ha. done.
Qed.

Lemma count_loop_newlines from i :
  count_loop from i = i + Z.of_nat (newlines from).
Proof.
  funelim (count_loop from i).
  - match goal with IH : count_loop _ _ = _ + _ |- _ => rewrite IH end.
    destruct (strchr_newline_Some _ _ Hk) as [-> _]. lia.
  - match goal with e : strchr _ _ = None |- _ =>
      rewrite (strchr_newline_None _ e) end. lia.
Qed.

Lemma skip_bytes_cons k a s : skip_bytes (S k) (String a s) = skip_bytes k s.
Proof. reflexivity. Qed.

#[local] Arguments skip_bytes : simpl never.


Lemma newlines_append s t : newlines (s +:+ t) = (newlines s + newlines t)%nat.
Proof.
  induction s as [|a s IH]; [done|]. rewrite append_cons. simpl.
  destruct (Ascii.eqb a newline); lia.
Qed.

(** A line without newline, then a newline: [strchr] stops at the end of
    the line, the cut gives the line and the rest begins after it. *)
Lemma first_line line rest :
  newlines line = 0%nat →
  strchr (line +:+ String newline rest) newline = Some (String.length line) ∧
  cut_at (String.length line) (line +:+ String newline rest) = line ∧
  skip_bytes (S (String.length line)) (line +:+ String newline rest) = rest.
Proof.
  induction line as [|a line IH].
  - intros _. rewrite append_nil. by destruct rest.
  - rewrite append_cons. simpl.
    destruct (Ascii.eqb a _) eqn:Ha; [done|]. intros Hline.
    destruct (IH Hline) as (IH1 & IH2 & IH3).
    rewrite IH1, IH2. simpl. by rewrite skip_bytes_cons, IH3.
Qed.

Lemma append_assoc s t u : (s +:+ t) +:+ u = s +:+ (t +:+ u).
Proof. induction s as [|a s IH]; [done|]. by rewrite !append_cons, IH. Qed.

Lemma append_empty s : s +:+ EmptyString = s.
Proof. induction s as [|a s IH]; [done|]. by rewrite append_cons, IH. Qed.

Lemma tokenize_loop_join lines tail :
  Forall (λ line, newlines line = 0%nat) lines →
  newlines tail = 0%nat →
  ∀ room, (length lines ≤ room)%nat →
          tokenize_loop room (join_lines lines +:+ tail) = Some lines.
Proof.
  intros Hlines Htail. induction Hlines as [|line lines Hline _ IH]; intros room Hroom.
  - simpl. rewrite append_nil.
    destruct room; simpl.
    + destruct (strchr tail newline) as [k|] eqn:Hk; [|done].
      apply strchr_newline_Some in Hk as [Hk _]. lia.
    + destruct (strchr tail newline) as [k|] eqn:Hk; [|done].
      apply strchr_newline_Some in Hk as [Hk _]. lia.
  - simpl in Hroom. destruct room as [|room]; [lia|].
    change (join_lines (line :: lines)) with (line +:+ String newline (join_lines lines)).
    assert ((line +:+ String newline (join_lines lines)) +:+ tail =
            line +:+ String newline (join_lines lines +:+ tail)) as ->.
    { clear. induction line as [|a line IH]; [done|]. rewrite !append_cons. by rewrite IH. }
    destruct (first_line line (join_lines lines +:+ tail) Hline) as (H1 & H2 & H3).
    simpl. rewrite H1, H2, H3, IH by lia. done.
Qed.

Lemma tokenize_loop_split room :
  ∀ pb tokens,
    tokenize_loop room pb = Some tokens →
    ∃ tail, pb = join_lines tokens +:+ tail ∧ newlines tail = 0%nat ∧
            Forall (λ line, newlines line = 0%nat) tokens.
Proof.
  assert (∀ k s, strchr s newline = Some k →
                 s = cut_at k s +:+ String newline (skip_bytes (S k) s)) as Hcut.
  { intros k s. revert k. induction s as [|a s IH]; intros k; simpl; [done|].
    destruct (Ascii.eqb_spec a newline) as [->|Hne].
    - intros [= <-]. by destruct s.
    - destruct (strchr s newline) as [k'|]; [|done]. intros [= <-].
      simpl. rewrite append_cons, skip_bytes_cons. f_equal. by apply IH. }
  induction room as [|room IH]; intros pb tokens; simpl.
  - destruct (strchr pb newline) as [k|] eqn:Hk; [done|]. intros [= <-].
    exists pb. split; [done|]. split; [by apply strchr_newline_None|constructor].
  - destruct (strchr pb newline) as [k|] eqn:Hk.
    + destruct (tokenize_loop room _) as [rest|] eqn:Hrest; [|done].
      intros [= <-]. destruct (IH _ _ Hrest) as (tail & Htail & Hnone & Hall).
      exists tail. split; [|split; [done|]].
      * rewrite (Hcut _ _ Hk) at 1. rewrite Htail. simpl.
        generalize (cut_at k pb). clear. intros line.
        induction line as [|a line IH]; [done|]. rewrite !append_cons. by rewrite IH.
      * constructor; [|done]. by apply strchr_newline_Some in Hk as [_ ?].
    + intros [= <-]. exists pb. split; [done|].
      split; [by apply strchr_newline_None|constructor].
Qed.

Lemma history_lines lines tail :
  Forall (λ line, newlines line = 0%nat) lines →
  newlines tail = 0%nat →
  countHistoryLines (join_lines lines +:+ tail) = Z.of_nat (length lines) ∧
  tokenizeHistory (join_lines lines +:+ tail) (Z.of_nat (length lines)) = Some lines.
Proof.
  intros Hlines Htail. unfold tokenizeHistory.
  rewrite (tokenize_loop_join lines tail Hlines Htail) by lia. split; [|done].
  unfold countHistoryLines. rewrite count_loop_newlines, newlines_append, Htail.
  clear Htail. induction Hlines as [|line lines Hline _ IH]; [done|].
  simpl. rewrite newlines_append, Hline. simpl in *. lia.
Qed.




(** X8. Whatever [tokenizeHistory] returns, the history is those lines,
    each ended by a newline, followed by a rest without newline; no line
    holds a newline. *)
Theorem tokenizeHistory_lines_of (history : string) (lines : Z) (tokens : list string) :
  tokenizeHistory history lines = Some tokens →
  ∃ tail, history = join_lines tokens +:+ tail ∧
          newlines tail = 0%nat ∧
          Forall (λ line, newlines line = 0%nat) tokens.
Proof. apply tokenize_loop_split. Qed.

(** ** The reversal *)

Lemma swap_slots_lookup {A : Type} (array array' : list A) i j :
  swap_slots array i j = Some array' →
  length array' = length array ∧
  ∀ k, array' !! k =
       if decide (k = j) then array !! i
       else if decide (k = i) then array !! j
       else array !! k.
Proof.
  unfold swap_slots. destruct (array !! i) as [temp|] eqn:Hi; [|done].
  destruct (array !! j) as [other|] eqn:Hj; [|done]. simpl. intros [= <-].
  split; [by rewrite !length_insert|]. intros k.
  apply lookup_lt_Some in Hi as Hi', Hj as Hj'.
  destruct (decide (k = j)) as [->|Hkj].
  - by rewrite list_lookup_insert_eq by (by rewrite length_insert).
  - rewrite list_lookup_insert_ne by done.
    destruct (decide (k = i)) as [->|Hki].
    + by rewrite list_lookup_insert_eq.
    + by rewrite list_lookup_insert_ne.
Qed.

Lemma reverse_loop_lookup {A : Type} (len : Z) (todo : nat) :
  ∀ (i : nat) (array : list A),
    0 ≤ len →
    (2 * (i + todo) ≤ Z.to_nat len)%nat →
    (Z.to_nat len ≤ length array)%nat →
    ∃ array',
      reverse_loop todo i len array = Some array' ∧
      length array' = length array ∧
      ∀ k, array' !! k =
           if decide ((i ≤ k < i + todo)%nat ∨
                      (Z.to_nat len - (i + todo) ≤ k < Z.to_nat len - i)%nat)
           then array !! (Z.to_nat len - 1 - k)%nat
           else array !! k.
Proof.
  induction todo as [|todo IH]; intros i array Hlen Hhalf Hroom.
  - exists array. split; [done|]. split; [done|]. intros k.
    destruct (decide _) as [H|_]; [lia|done].
  - simpl. unfold mirror_index.
    destruct (Z.ltb_spec (len - Z.of_nat i - 1) 0) as [|_]; [lia|]. simpl.
    replace (Z.to_nat (len - Z.of_nat i - 1)) with (Z.to_nat len - 1 - i)%nat by lia.
    destruct (swap_slots array i (Z.to_nat len - 1 - i)%nat) as [array1|] eqn:Hswap; cycle 1.
    { unfold swap_slots in Hswap.
      destruct (lookup_lt_is_Some_2 array i) as [x Hx]; [lia|].
      destruct (lookup_lt_is_Some_2 array (Z.to_nat len - 1 - i)%nat) as [y Hy]; [lia|].
      by rewrite Hx, Hy in Hswap. }
    simpl. apply swap_slots_lookup in Hswap as [Hlen1 Hswap].
    destruct (IH (S i) array1) as (array' & -> & Hlen' & Hlook); [lia..|].
    exists array'. split; [done|]. split; [congruence|]. intros k.
    rewrite Hlook, !Hswap.
    repeat (destruct (decide _)); try lia; try done; f_equal; lia.
Qed.

Lemma reverse_array {A : Type} (array : list A) (len : Z) :
  0 ≤ len ≤ Z.of_nat (length array) →
  reverseCharPointerArray array len =
  Some (reverse (take (Z.to_nat len) array) ++ drop (Z.to_nat len) array).
Proof.
  intros Hlen. unfold reverseCharPointerArray.
  assert (2 * Z.to_nat (len ÷ 2) ≤ Z.to_nat len ≤ 2 * Z.to_nat (len ÷ 2) + 1)%nat as Hhalf.
  { rewrite Z.quot_div_nonneg by lia.
    pose proof (Z.div_mod len 2 ltac:(lia)) as Hdiv.
    pose proof (Z.mod_pos_bound len 2 ltac:(lia)) as Hmod. lia. }
  destruct (reverse_loop_lookup len (Z.to_nat (len ÷ 2)) 0 array)
    as (array' & -> & Hlen' & Hlook); [lia..|].
  f_equal. apply list_eq. intros k. rewrite Hlook.
  destruct (decide (k < Z.to_nat len)%nat) as [Hk|Hk].
  - rewrite lookup_app_l by (rewrite length_reverse, length_take; lia).
    rewrite reverse_lookup by (rewrite length_take; lia).
    rewrite length_take, lookup_take_lt by lia.
    destruct (decide _) as [_|Hmid]; f_equal; lia.
  - rewrite lookup_app_r by (rewrite length_reverse, length_take; lia).
    rewrite length_reverse, length_take, lookup_drop.
    destruct (decide _) as [|_]; [lia|]. f_equal. lia.
Qed.

(** X9. [reverseCharPointerArray] on the first [len] slots of an array
    leaves them in reverse order and the other slots as they were. *)
Theorem reverseCharPointerArray_reverses {A : Type} (array : list A) (len : Z) :
  0 ≤ len ≤ Z.of_nat (length array) →
  reverseCharPointerArray array len =
  Some (reverse (take (Z.to_nat len) array) ++ drop (Z.to_nat len) array).
Proof. apply reverse_array. Qed.

(** ** More on the filter *)

Lemma filter_all {A : Type} (l : list A) : filter (λ _, True) l = l.
Proof. induction l as [|x l IH]; [done|]. by rewrite filter_cons_True, IH. Qed.

Lemma selection_text_no_fragment h l g :
  selection_text h (selected None h l g) = take (Z.to_nat l) (Spec.unique h).
Proof.
  unfold selection_text.
  rewrite selected_accepted, app_nil_r, fmap_take.
  rewrite (accepted_texts _ (λ _, True)) by done.
  by rewrite filter_all.
Qed.

Lemma elem_of_unique_from seen lines x :
  x ∈ Spec.unique_from seen lines ↔ x ∈ lines ∧ x ∉ seen.
Proof.
  revert seen. induction lines as [|line lines IH]; intros seen; simpl.
  - split; [by intros ?%elem_of_nil | by intros [?%elem_of_nil _]].
  - destruct (decide (line ∈ seen)) as [Hin|Hin].
    + rewrite IH, elem_of_cons. split; [tauto|]. intros [[->|?] ?]; tauto.
    + rewrite !elem_of_cons, IH, elem_of_cons.
      destruct (decide (x = line)) as [->|Hne]; tauto.
Qed.

Lemma length_unique_from seen lines :
  (length (Spec.unique_from seen lines) ≤ length lines)%nat.
Proof.
  revert seen. induction lines as [|line lines IH]; intros seen; simpl; [done|].
  destruct (decide _); simpl; [specialize (IH seen)|specialize (IH (line :: seen))]; lia.
Qed.

Lemma length_filter_disjoint {A : Type} (P Q : A → Prop)
    `{!∀ x, Decision (P x)} `{!∀ x, Decision (Q x)} (l : list A) :
  (∀ x, P x → Q x → False) →
  (length (filter P l) + length (filter Q l) ≤ length l)%nat.
Proof.
  intros HPQ. induction l as [|x l IH]; [done|].
  rewrite !filter_cons. destruct (decide (P x)), (decide (Q x)); simpl; try lia.
  by destruct (HPQ x).
Qed.

(** With room for every line, nothing is cut off. *)
Lemma selection_text_fragment_all h f l g :
  Z.of_nat (length h) ≤ l →
  selection_text h (selected (Some f) h l g) =
  Spec.unique (filter (Spec.starts_with f) h) ++
  Spec.unique (filter (Spec.substring_only f) h).
Proof.
  intros Hl. rewrite selected_phase_order. apply take_ge.
  rewrite length_app. unfold Spec.unique.
  pose proof (length_unique_from [] (filter (Spec.starts_with f) h)).
  pose proof (length_unique_from [] (filter (Spec.substring_only f) h)).
  pose proof (length_filter_disjoint (Spec.starts_with f) (Spec.substring_only f) h) as Hd.
  lapply Hd; [lia|]. intros x Hs [_ Hn]. done.
Qed.

Lemma selection_text_contains h f l g line :
  Z.of_nat (length h) ≤ l →
  line ∈ selection_text h (selected (Some f) h l g) ↔
  line ∈ h ∧ Spec.contains f line.
Proof.
  intros Hl. rewrite selection_text_fragment_all by done.
  unfold Spec.unique. rewrite elem_of_app, !elem_of_unique_from, !list_elem_of_filter.
  unfold Spec.substring_only. split.
  - intros [[[Hs ?] _]|[[[? _] ?] _]]; [|done]. split; [done|].
    destruct Hs as [rest ->]. by exists EmptyString, rest.
  - intros [Hin Hc]. destruct (decide (Spec.starts_with f line)).
    + left. split; [done|]. by intros ?%elem_of_nil.
    + right. split; [done|]. by intros ?%elem_of_nil.
Qed.

Lemma contains_shorter f t line : Spec.contains (f +:+ t) line → Spec.contains f line.
Proof.
  intros (before & after & ->). exists before, (t +:+ after). by rewrite append_assoc.
Qed.

(** X1. Without a fragment and with a limit below 2^28, [makeSelection]
    returns, and the selection is, up to the limit, the lines of the
    history in order, each where it first occurs. *)
Theorem makeSelection_without_fragment (history : list string) (limit : Z) (g : globals) :
  limit < 2 ^ 28 →
  ∃ g', makeSelection None history limit g = Some g' ∧
        selection_text history g' = take (Z.to_nat limit) (Spec.unique history).
Proof.
  intros Hlimit. eexists. split; [by apply makeSelection_returns|].
  apply selection_text_no_fragment.
Qed.

(** X2. With limits below 2^28, a smaller limit cuts the selection of a
    larger limit short: the entries are the same, in the same order, as
    far as they go. *)
Theorem makeSelection_limit_prefix (prefix : option string) (history : list string)
    (limit limit' : Z) (g g' : globals) :
  limit ≤ limit' →
  limit' < 2 ^ 28 →
  ∃ r r', makeSelection prefix history limit g = Some r ∧
          makeSelection prefix history limit' g' = Some r' ∧
          selection r = take (Z.to_nat limit) (selection r').
Proof.
  intros Hle Hlimit. eexists _, _.
  split; [apply makeSelection_returns; lia|].
  split; [by apply makeSelection_returns|].
  rewrite !selected_accepted, take_take. f_equal. lia.
Qed.

(** X3. With room for every line of the history, and a limit below 2^28,
    no match is left out: every line that contains the fragment (every
    line, without a fragment) is in the selection. *)
Theorem makeSelection_complete (prefix : option string) (history : list string)
    (limit : Z) (g : globals) (line : string) :
  Z.of_nat (length history) ≤ limit →
  limit < 2 ^ 28 →
  line ∈ history →
  match prefix with Some f => Spec.contains f line | None => True end →
  ∃ g', makeSelection prefix history limit g = Some g' ∧
        line ∈ selection_text history g'.
Proof.
  intros Hl Hlimit Hin Hc. eexists. split; [by apply makeSelection_returns|].
  destruct prefix as [f|].
  - by apply selection_text_contains.
  - rewrite selection_text_no_fragment, take_ge.
    + apply elem_of_unique_from. split; [done|]. by intros ?%elem_of_nil.
    + pose proof (length_unique_from [] history). unfold Spec.unique. lia.
Qed.

(** X4. With limits below 2^28, a longer fragment selects no line that the
    shorter fragment, given room for every line, does not select. *)
Theorem makeSelection_narrows (history : list string) (f t : string)
    (limit limit' : Z) (g g' : globals) :
  Z.of_nat (length history) ≤ limit' →
  limit < 2 ^ 28 →
  limit' < 2 ^ 28 →
  ∃ r r', makeSelection (Some (f +:+ t)) history limit g = Some r ∧
          makeSelection (Some f) history limit' g' = Some r' ∧
          selection_text history r ⊆ selection_text history r'.
Proof.
  intros Hl Hlimit Hlimit'. eexists _, _.
  split; [by apply makeSelection_returns|].
  split; [by apply makeSelection_returns|].
  intros line Hline. apply selection_text_contains; [done|].
  rewrite selected_phase_order in Hline. apply (subseteq_take (Z.to_nat limit)) in Hline.
  unfold Spec.unique in Hline.
  rewrite elem_of_app, !elem_of_unique_from, !list_elem_of_filter in Hline.
  destruct Hline as [[[Hs Hin] _]|[[[Hc _] Hin] _]]; (split; [done|]).
  - apply (contains_shorter f t). destruct Hs as [rest ->]. by exists EmptyString, rest.
  - by apply (contains_shorter f t).
Qed.

(** ** More on the loop *)

Lemma selected_valid prefix h l g p :
  p ∈ selection (selected prefix h l g) → is_Some (h !! p).
Proof.
  rewrite selected_scanned. cbn [selection].
  intros (line & -> & _)%scanned_pointers. by eexists.
Qed.

Lemma line_of_elem_of h p : is_Some (h !! p) → line_of h p ∈ h.
Proof.
  intros [line Hline]. rewrite (line_of_lookup _ _ _ Hline).
  by apply list_elem_of_lookup_2 in Hline.
Qed.

Lemma sound_start h m : sound h (start h m).
Proof.
  unfold start.
  destruct (printSelection _ _ _ _) as [[g r]|] eqn:Hp.
  - apply printSelection_Some in Hp as [-> _].
    split; [|by left]. intros p. apply selected_valid.
  - split; [|by left]. intros p Hin. by apply elem_of_nil in Hin.
Qed.

Lemma sound_step h m c s s' : sound h s → step h m c s = Running s' → sound h s'.
Proof.
  intros [Hsel Hres] Hstep. destruct (is_edit c) eqn:Hc.
  - apply (edit_step _ _ _ _ _ Hc) in Hstep as (Hg & Hr & _). split.
    + intros p. rewrite Hg. apply selected_valid.
    + rewrite Hr. unfold head_text.
      destruct (selection (globs s')) as [|p ps] eqn:Hps; [by left|]. right.
      apply line_of_elem_of. rewrite Hg in Hps.
      apply (selected_valid (Some (prefix s')) h m no_globals). rewrite Hps. by left.
  - apply (other_step _ _ _ _ _ Hc) in Hstep as (Hg & _ & Hr). split.
    + by rewrite Hg.
    + by rewrite Hr.
Qed.

Lemma step_Done h m c s text :
  step h m c s = Done text → on_enter h s = Done text.
Proof.
  rewrite step_classify. destruct (classify c); try done.
  - unfold on_backspace. by destruct (_ ≫= _) as [[? ?]|].
  - unfold on_up. by destruct (_ >? _).
  - unfold on_default. destruct (c =? 27); [done|].
    destruct (key_text c); [|done]. destruct (_ <? _); [|done].
    by destruct (printSelection _ _ _ _) as [[? ?]|].
Qed.

Lemma on_enter_sound h s text :
  sound h s → on_enter h s = Done text → text = EmptyString ∨ text ∈ h.
Proof.
  intros [Hsel Hres]. unfold on_enter, selection_at.
  destruct (negb _); [|by intros [= <-]].
  destruct (_ <? 0); [done|].
  destruct (selection (globs s) !! _) as [p|] eqn:Hp; [|done].
  intros [= <-]. right. apply line_of_elem_of, Hsel. by apply list_elem_of_lookup_2 in Hp.
Qed.

Lemma run_Done_sound h turns :
  ∀ s text, sound h s → run h turns s = Done text → text = EmptyString ∨ text ∈ h.
Proof.
  induction turns as [|[m c] turns IH]; intros s text Hs; simpl; [done|].
  destruct (step h m c s) as [s'|text'|] eqn:Hstep; [| |done].
  - apply IH. by apply (sound_step h m c s).
  - intros [= <-]. apply (on_enter_sound h s); [done|]. by apply (step_Done h m c).
Qed.

(** X10. A text that [selectionLoop] returns is empty or a line of the
    history, whatever the keys before it were; a run that reads a slot
    never written or stores outside a buffer returns none. *)
Theorem selectionLoop_returns_history_line (history : list string)
    (maxHistoryItems : Z) (turns : list (Z * Z)) (text : string) :
  selectionLoop history maxHistoryItems turns = Done text →
  text = EmptyString ∨ text ∈ history.
Proof.
  unfold selectionLoop. destruct (printSelection _ _ _ _); [|done].
  apply run_Done_sound, sound_start.
Qed.

Lemma arrow_step h m c s :
  is_arrow_key c = true →
  0 < selectionSize (globs s) →
  -1 ≤ selectionCursorPosition s < selectionSize (globs s) →
  ∃ s', step h m c s = Running s' ∧
        globs s' = globs s ∧ prefix s' = prefix s ∧ result s' = result s ∧
        -1 ≤ selectionCursorPosition s' < selectionSize (globs s).
Proof.
  unfold is_arrow_key. intros Hc Hsize Hcur. rewrite step_classify.
  destruct (classify c); try done.
  - unfold on_up, SELECTION_CURSOR_IN_PROMPT.
    destruct (Z.gtb_spec (selectionCursorPosition s) (-1));
      eexists; (split; [reflexivity|]); simpl; repeat split; lia.
  - unfold on_down. eexists. split; [reflexivity|]. simpl. repeat split; try done.
    + destruct (_ <? _); lia.
    + destruct (Z.ltb_spec (selectionCursorPosition s + 1) (selectionSize (globs s))); lia.
Qed.

Lemma arrows_run h m cs :
  Forall (λ c, is_arrow_key c = true) cs →
  ∀ s, 0 < selectionSize (globs s) →
       -1 ≤ selectionCursorPosition s < selectionSize (globs s) →
       ∃ s', run h (keys m cs) s = Running s' ∧
             globs s' = globs s ∧ prefix s' = prefix s ∧ result s' = result s ∧
             -1 ≤ selectionCursorPosition s' < selectionSize (globs s).
Proof.
  induction 1 as [|c cs Hc _ IH]; intros s Hsize Hcur; simpl.
  - by exists s.
  - destruct (arrow_step h m c s Hc Hsize Hcur) as (s1 & -> & Hg & Hp & Hr & Hcur1).
    destruct (IH s1) as (s' & Hrun & Hg' & Hp' & Hr' & Hcur'); [by rewrite Hg..|].
    exists s'. split; [done|]. split; [congruence|]. split; [congruence|].
    split; [congruence|]. by rewrite <- Hg.
Qed.

Lemma enter_in_selection h m s :
  selectionSize (globs s) = Z.of_nat (length (selection (globs s))) →
  -1 ≤ selectionCursorPosition s < selectionSize (globs s) →
  step h m 10 s =
  Done (if selectionCursorPosition s =? SELECTION_CURSOR_IN_PROMPT then result s
        else default EmptyString
               (line_of h <$> selection (globs s) !! Z.to_nat (selectionCursorPosition s))).
Proof.
  intros Hsize Hcur. rewrite step_classify. change (classify 10) with KEnter. cbv iota.
  unfold on_enter, selection_at, SELECTION_CURSOR_IN_PROMPT.
  destruct (Z.eqb_spec (selectionCursorPosition s) (-1)); [done|]. cbn [negb].
  destruct (Z.ltb_spec (selectionCursorPosition s) 0); [lia|].
  destruct (lookup_lt_is_Some_2 (selection (globs s))
              (Z.to_nat (selectionCursorPosition s))) as [p ->]; [lia|]. done.
Qed.

(** X11. On a selection that is not empty, with the cursor in the prompt
    or on an entry, the arrow keys change neither the selection nor the
    fragment and leave the cursor in the prompt or on an entry, so that
    Enter returns a text. *)
Theorem arrows_stay_in_selection (history : list string) (maxHistoryItems : Z)
    (cs : list Z) (s : session) :
  Forall (λ c, is_arrow_key c = true) cs →
  selectionSize (globs s) = Z.of_nat (length (selection (globs s))) →
  0 < selectionSize (globs s) →
  -1 ≤ selectionCursorPosition s < selectionSize (globs s) →
  ∃ s', run history (keys maxHistoryItems cs) s = Running s' ∧
        globs s' = globs s ∧ prefix s' = prefix s ∧
        -1 ≤ selectionCursorPosition s' < selectionSize (globs s) ∧
        ∃ text, step history maxHistoryItems 10 s' = Done text.
Proof.
  intros Hcs Heq Hsize Hcur.
  destruct (arrows_run history maxHistoryItems cs Hcs s Hsize Hcur)
    as (s' & Hrun & Hg & Hp & _ & Hcur').
  exists s'. repeat split; try done; try lia.
  eexists. apply enter_in_selection; rewrite Hg; [done|lia].
Qed.

Lemma downs_run h s0 :
  selectionCursorPosition s0 = SELECTION_CURSOR_IN_PROMPT →
  ∀ k, Z.of_nat k < selectionSize (globs s0) →
       ∀ m', ∃ s, run h (keys m' (repeat KEY_DOWN (S k))) s0 = Running s ∧
                  globs s = globs s0 ∧
                  selectionCursorPosition s = Z.of_nat k.
Proof.
  unfold SELECTION_CURSOR_IN_PROMPT. intros Hs0.
  induction k as [|k IH]; intros Hk m'.
  - exists (match on_down s0 with Running s => s | _ => s0 end).
    split; [reflexivity|]. split; [reflexivity|].
    unfold on_down. cbn [selectionCursorPosition]. rewrite Hs0.
    destruct (Z.ltb_spec (-1 + 1) (selectionSize (globs s0))); lia.
  - destruct (IH ltac:(lia) m') as (s & Hrun & Hg & Hcur).
    change (repeat KEY_DOWN (S (S k))) with (KEY_DOWN :: repeat KEY_DOWN (S k)).
    rewrite (repeat_cons (S k)). unfold keys. rewrite fmap_app, run_app.
    fold (keys m' (repeat KEY_DOWN (S k))). rewrite Hrun.
    exists (match on_down s with Running s' => s' | _ => s end).
    split; [reflexivity|]. split; [done|].
    unfold on_down. cbn [selectionCursorPosition]. rewrite Hg, Hcur.
    destruct (Z.ltb_spec (Z.of_nat k + 1) (selectionSize (globs s0))); lia.
Qed.

Lemma downs_enter h m m' k text :
  m < 2 ^ 28 →
  take (Z.to_nat m) (Spec.unique h) !! k = Some text →
  selectionLoop h m (keys m' (repeat KEY_DOWN (S k) ++ [10])) = Done text.
Proof.
  intros Hm Hk. rewrite <- selection_text_no_fragment with (g := no_globals) in Hk.
  unfold selection_text in Hk. rewrite list_lookup_fmap in Hk.
  rewrite selectionLoop_returns, start_returns by done.
  set (s0 := entry (selected None h m no_globals)).
  change (selected None h m no_globals) with (globs s0) in Hk.
  destruct (selection (globs s0) !! k) as [p|] eqn:Hp; [|done].
  injection Hk as <-. apply lookup_lt_Some in Hp as Hlt.
  destruct (downs_run h s0 eq_refl k) with (m' := m') as (s & Hrun & Hg & Hcur).
  { change (globs s0) with (selected None h m no_globals).
    rewrite selected_size. change (selected None h m no_globals) with (globs s0). lia. }
  unfold keys. rewrite fmap_app, run_app.
  fold (keys m' (repeat KEY_DOWN (S k))). rewrite Hrun. simpl.
  change (step h m' 10 s) with (on_enter h s).
  unfold on_enter, selection_at, SELECTION_CURSOR_IN_PROMPT. rewrite Hcur, Hg.
  destruct (Z.eqb_spec (Z.of_nat k) (-1)); [lia|]. cbn [negb].
  destruct (Z.ltb_spec (Z.of_nat k) 0); [lia|]. by rewrite Nat2Z.id, Hp.
Qed.

(** X12. From the start, in a window of fewer than 2^28 rows, [k+1] Down
    keys and Enter return the entry [k] of the list drawn first: the
    [k]-th of the different lines of the history, if the window has a
    row for it. *)
Theorem downs_then_enter (history : list string) (maxHistoryItems m : Z)
    (k : nat) (text : string) :
  maxHistoryItems < 2 ^ 28 →
  take (Z.to_nat maxHistoryItems) (Spec.unique history) !! k = Some text →
  selectionLoop history maxHistoryItems (keys m (repeat KEY_DOWN (S k) ++ [10]))
  = Done text.
Proof. apply downs_enter. Qed.

(** ** From the file to the terminal *)

Lemma fillTerminalInput_appends cmd input : fillTerminalInput cmd input = input +:+ cmd.
Proof.
  revert input. induction cmd as [|c cmd IH]; intros input; simpl.
  - clear. induction input as [|a input IH]; [done|]. by rewrite append_cons, <- IH.
  - by rewrite IH, append_assoc.
Qed.

Lemma hstr_lines lines tail m turns :
  Forall (λ line, newlines line = 0%nat) lines →
  newlines tail = 0%nat →
  hstr (join_lines lines +:+ tail) m turns =
  match selectionLoop (reverse lines) m turns with
  | Done command => Injected command
  | Running _ => Waiting
  | Undefined => Fault
  end.
Proof.
  intros Hlines Htail. unfold hstr.
  destruct (history_lines lines tail Hlines Htail) as [-> ->].
  rewrite reverse_array by lia.
  rewrite Nat2Z.id, firstn_all, drop_all, app_nil_r.
  destruct (selectionLoop _ _ _); try done.
  by rewrite fillTerminalInput_appends.
Qed.

(** X13. [hstr] runs the loop on the lines of the file, the last line
    first, and pushes the text the loop returns into the terminal. *)
Theorem hstr_runs_on_reversed_lines (lines : list string) (tail : string)
    (maxHistoryItems : Z) (turns : list (Z * Z)) :
  Forall (λ line, newlines line = 0%nat) lines →
  newlines tail = 0%nat →
  hstr (join_lines lines +:+ tail) maxHistoryItems turns =
  match selectionLoop (reverse lines) maxHistoryItems turns with
  | Done command => Injected command
  | Running _ => Waiting
  | Undefined => Fault
  end.
Proof. apply hstr_lines. Qed.

(** ** The label, the marker and the rows *)

Lemma length_spaces n : String.length (spaces n) = n.
Proof. induction n as [|n IH]; [done|]. simpl. by rewrite IH. Qed.

Lemma pad_message_fits times :
  ∀ message,
    strlen message + Z.of_nat times < MESSAGE_SIZE →
    pad_message times message = Some (message +:+ spaces times).
Proof.
  unfold strlen, MESSAGE_SIZE.
  induction times as [|times IH]; intros message Hfit.
  - simpl. by rewrite append_empty.
  - cbn [pad_message]. unfold strlen, MESSAGE_SIZE. rewrite length_append. cbn [String.length].
    destruct (Z.ltb_spec (Z.of_nat (String.length message + 1)) 512); [|lia].
    rewrite IH by (rewrite length_append; cbn [String.length]; lia).
    by rewrite append_assoc.
Qed.

Lemma pad_message_overflows times :
  ∀ message,
    (0 < times)%nat →
    MESSAGE_SIZE ≤ strlen message + Z.of_nat times →
    pad_message times message = None.
Proof.
  unfold strlen, MESSAGE_SIZE.
  induction times as [|times IH]; intros message Hpos Hover; [lia|].
  cbn [pad_message]. unfold strlen, MESSAGE_SIZE. rewrite length_append. cbn [String.length].
  destruct (Z.ltb_spec (Z.of_nat (String.length message + 1)) 512); [|done].
  apply IH; [|rewrite length_append; cbn [String.length]; lia].
  destruct times; [|lia]. lia.
Qed.

(** X15. In a window less than 512 columns wide the label is padded with
    blanks to the width of the window (and is never shorter than its
    text); in a wider window the padding overflows the buffer. *)
Theorem printHistoryLabel_width (width : Z) :
  (width < MESSAGE_SIZE →
   ∃ message, printHistoryLabel width = Some message ∧
              message = LABEL_HISTORY +:+ spaces (Z.to_nat (width - strlen LABEL_HISTORY)) ∧
              strlen message = Z.max width (strlen LABEL_HISTORY)) ∧
  (MESSAGE_SIZE ≤ width → printHistoryLabel width = None).
Proof.
  unfold printHistoryLabel. change (strlen LABEL_HISTORY) with 9. split.
  - intros Hw. rewrite pad_message_fits.
    + eexists. split; [reflexivity|]. split; [done|].
      unfold strlen. rewrite length_append, length_spaces. simpl. lia.
    + change (strlen LABEL_HISTORY) with 9. unfold MESSAGE_SIZE in *. lia.
  - intros Hw. apply pad_message_overflows.
    + unfold MESSAGE_SIZE in Hw. lia.
    + change (strlen LABEL_HISTORY) with 9. unfold MESSAGE_SIZE in *. lia.
Qed.







(** * The rest of the program on concrete inputs *)

Lemma makeSelection_without_fragment_witness :
  2 < 2 ^ 28 ∧
  ∃ g', makeSelection None ["ls"; "make"; "ls"; "cd"] 2 no_globals = Some g' ∧
        selection_text ["ls"; "make"; "ls"; "cd"] g' = ["ls"; "make"].
Proof.
  assert (2 < 2 ^ 28) as Hlimit by reflexivity.
  split; [exact Hlimit|].
  destruct (makeSelection_without_fragment ["ls"; "make"; "ls"; "cd"] 2 no_globals Hlimit)
    as (g' & Hg & Ht).
  exists g'. split; [exact Hg|]. rewrite Ht. vm_compute. reflexivity.
Defined.

Lemma makeSelection_limit_prefix_witness :
  1 ≤ 2 ∧ 2 < 2 ^ 28 ∧
  ∃ r r', makeSelection (Some "g") shell_history 1 no_globals = Some r ∧
          makeSelection (Some "g") shell_history 2 no_globals = Some r' ∧
          selection r = take (Z.to_nat 1) (selection r').
Proof.
  assert (1 ≤ 2) as Hle by lia.
  assert (2 < 2 ^ 28) as Hlimit by reflexivity.
  split; [exact Hle|]. split; [exact Hlimit|].
  exact (makeSelection_limit_prefix (Some "g") shell_history 1 2 no_globals no_globals
           Hle Hlimit).
Defined.

Lemma makeSelection_complete_witness :
  Z.of_nat (length shell_history) ≤ 3 ∧
  3 < 2 ^ 28 ∧
  "go build" ∈ shell_history ∧
  Spec.contains "o" "go build" ∧
  ∃ g', makeSelection (Some "o") shell_history 3 no_globals = Some g' ∧
        "go build" ∈ selection_text shell_history g'.
Proof.
  assert (Z.of_nat (length shell_history) ≤ 3) as Hroom by (simpl; lia).
  assert (3 < 2 ^ 28) as Hlimit by reflexivity.
  assert ("go build" ∈ shell_history) as Hin by (right; left).
  assert (Spec.contains "o" "go build") as Hc by (exists "g", " build"; reflexivity).
  split; [exact Hroom|]. split; [exact Hlimit|]. split; [exact Hin|]. split; [exact Hc|].
  exact (makeSelection_complete (Some "o") shell_history 3 no_globals "go build"
           Hroom Hlimit Hin Hc).
Defined.

Lemma makeSelection_narrows_witness :
  Z.of_nat (length shell_history) ≤ 3 ∧
  1 < 2 ^ 28 ∧ 3 < 2 ^ 28 ∧
  ∃ r r', makeSelection (Some ("g" +:+ "o")) shell_history 1 no_globals = Some r ∧
          makeSelection (Some "g") shell_history 3 no_globals = Some r' ∧
          selection_text shell_history r ⊆ selection_text shell_history r'.
Proof.
  assert (Z.of_nat (length shell_history) ≤ 3) as Hroom by (simpl; lia).
  assert (1 < 2 ^ 28) as Hlimit by reflexivity.
  assert (3 < 2 ^ 28) as Hlimit' by reflexivity.
  split; [exact Hroom|]. split; [exact Hlimit|]. split; [exact Hlimit'|].
  exact (makeSelection_narrows shell_history "g" "o" 1 3 no_globals no_globals
           Hroom Hlimit Hlimit').
Defined.



Lemma tokenizeHistory_lines_of_witness :
  tokenizeHistory history_file 3 = Some three_commands ∧
  ∃ tail, history_file = join_lines three_commands +:+ tail ∧
          newlines tail = 0%nat ∧
          Forall (λ line, newlines line = 0%nat) three_commands.
Proof.
  assert (tokenizeHistory history_file 3 = Some three_commands) as Htokens
    by (vm_compute; reflexivity).
  split; [exact Htokens|].
  exact (tokenizeHistory_lines_of history_file 3 three_commands Htokens).
Defined.

Lemma reverseCharPointerArray_reverses_witness :
  0 ≤ 3 ≤ Z.of_nat (length three_commands) ∧
  reverseCharPointerArray three_commands 3 = Some ["make"; "cd /tmp"; "ls"].
Proof.
  assert (0 ≤ 3 ≤ Z.of_nat (length three_commands)) as Hlen by (simpl; lia).
  split; [exact Hlen|].
  exact (reverseCharPointerArray_reverses three_commands 3 Hlen).
Defined.

Lemma selectionLoop_returns_history_line_witness :
  selectionLoop shell_history 10 (keys 10 [103; 10]) = Done "git status" ∧
  ("git status" = EmptyString ∨ "git status" ∈ shell_history).
Proof.
  assert (selectionLoop shell_history 10 (keys 10 [103; 10]) = Done "git status") as Hrun
    by (vm_compute; reflexivity).
  split; [exact Hrun|].
  exact (selectionLoop_returns_history_line shell_history 10 (keys 10 [103; 10])
           "git status" Hrun).
Defined.

Lemma arrows_stay_in_selection_witness :
  Forall (λ c, is_arrow_key c = true) arrow_keys ∧
  selectionSize (globs typed_g) = Z.of_nat (length (selection (globs typed_g))) ∧
  0 < selectionSize (globs typed_g) ∧
  -1 ≤ selectionCursorPosition typed_g < selectionSize (globs typed_g) ∧
  ∃ s', run shell_history (keys 10 arrow_keys) typed_g = Running s' ∧
        globs s' = globs typed_g ∧ prefix s' = prefix typed_g ∧
        -1 ≤ selectionCursorPosition s' < selectionSize (globs typed_g) ∧
        ∃ text, step shell_history 10 10 s' = Done text.
Proof.
  assert (Forall (λ c, is_arrow_key c = true) arrow_keys) as Hkeys by (repeat constructor).
  assert (selectionSize (globs typed_g) = Z.of_nat (length (selection (globs typed_g))))
    as Hsize by reflexivity.
  assert (0 < selectionSize (globs typed_g)) as Hpos by (simpl; lia).
  assert (-1 ≤ selectionCursorPosition typed_g < selectionSize (globs typed_g)) as Hcur
    by (simpl; lia).
  split; [exact Hkeys|]. split; [exact Hsize|]. split; [exact Hpos|]. split; [exact Hcur|].
  exact (arrows_stay_in_selection shell_history 10 arrow_keys typed_g Hkeys Hsize Hpos Hcur).
Defined.

Lemma downs_then_enter_witness :
  10 < 2 ^ 28 ∧
  take (Z.to_nat 10) (Spec.unique shell_history) !! 1%nat = Some "go build" ∧
  selectionLoop shell_history 10 (keys 10 (repeat KEY_DOWN 2 ++ [10])) = Done "go build".
Proof.
  assert (10 < 2 ^ 28) as Hrows by reflexivity.
  assert (take (Z.to_nat 10) (Spec.unique shell_history) !! 1%nat = Some "go build") as Hk
    by (vm_compute; reflexivity).
  split; [exact Hrows|]. split; [exact Hk|].
  exact (downs_then_enter shell_history 10 10 1 "go build" Hrows Hk).
Defined.

Lemma hstr_runs_on_reversed_lines_witness :
  Forall (λ line, newlines line = 0%nat) three_commands ∧
  newlines "tail" = 0%nat ∧
  hstr history_file 10 (keys 10 [KEY_DOWN; KEY_DOWN; 10]) =
  match selectionLoop (reverse three_commands) 10 (keys 10 [KEY_DOWN; KEY_DOWN; 10]) with
  | Done command => Injected command
  | Running _ => Waiting
  | Undefined => Fault
  end.
Proof.
  assert (Forall (λ line, newlines line = 0%nat) three_commands) as Hlines
    by (repeat constructor).
  assert (newlines "tail" = 0%nat) as Htail by reflexivity.
  split; [exact Hlines|]. split; [exact Htail|].
  exact (hstr_runs_on_reversed_lines three_commands "tail" 10
           (keys 10 [KEY_DOWN; KEY_DOWN; 10]) Hlines Htail).
Defined.

Lemma printHistoryLabel_width_witness :
  80 < MESSAGE_SIZE ∧
  (∃ message, printHistoryLabel 80 = Some message ∧
              message = LABEL_HISTORY +:+ spaces (Z.to_nat (80 - strlen LABEL_HISTORY)) ∧
              strlen message = Z.max 80 (strlen LABEL_HISTORY)) ∧
  MESSAGE_SIZE ≤ 600 ∧
  printHistoryLabel 600 = None.
Proof.
  assert (80 < MESSAGE_SIZE) as Hfit by reflexivity.
  assert (MESSAGE_SIZE ≤ 600) as Hover by (vm_compute; discriminate).
  split; [exact Hfit|].
  split; [exact (proj1 (printHistoryLabel_width 80) Hfit)|].
  split; [exact Hover|].
  exact (proj2 (printHistoryLabel_width 600) Hover).
Defined.


